(** * IPO subscription scraper: a shallow embedding of [ipo_scraper.py]

    The script visits a list of IPO detail pages with a browser, reads the
    subscription table of each page and accumulates one row per page.

    The development has three layers, each a module:
    - [PyStr]: the Python string operations the script uses
      ([in], [split], [replace], [strip], [title], the title regex);
    - [Soup]: the parse tree the script queries through BeautifulSoup
      ([find], [find_parent], [find_all], [get_text]);
    - [Scraper]: the function [scrape_ipo_subscription_data] itself, with
      its local variables, its exception handlers and the trace of the
      calls it makes on the browser.

    Strings are [string]s of the Standard Library, so characters are bytes:
    letter case and white space are those of ASCII. *)

From Stdlib Require Import String Ascii List Bool Arith Lia.
Import ListNotations.
Open Scope string_scope.
Open Scope list_scope.

(* ================================================================= *)
(** ** Python string operations *)

Module PyStr.

(** [s.startswith(p)] *)
Fixpoint startswith (p s : string) : bool :=
  match p, s with
  | EmptyString, _ => true
  | String _ _, EmptyString => false
  | String a p', String b s' => Ascii.eqb a b && startswith p' s'
  end.

(** [needle in hay] *)
Fixpoint contains (needle hay : string) : bool :=
  startswith needle hay ||
  match hay with
  | EmptyString => false
  | String _ hay' => contains needle hay'
  end.

(** [s.split(sep)] for a one-character separator: every occurrence of the
    separator cuts, and empty pieces are kept. *)
Fixpoint split (sep : ascii) (s : string) : list string :=
  match s with
  | EmptyString => [EmptyString]
  | String c s' =>
      if Ascii.eqb c sep then EmptyString :: split sep s'
      else match split sep s' with
           | [] => [String c EmptyString]
           | p :: ps => String c p :: ps
           end
  end.

(** [s.replace(old, new)] for a non-empty [old]: occurrences are replaced
    from left to right and do not overlap.  After a replacement the scan
    resumes [length old] characters further; [skip] counts the characters
    of the occurrence that are still to be dropped. *)
Fixpoint replace_from (skip : nat) (old new s : string) : string :=
  match s with
  | EmptyString => EmptyString
  | String c s' =>
      match skip with
      | S k => replace_from k old new s'
      | O =>
          if startswith old s
          then new ++ replace_from (String.length old - 1) old new s'
          else String c (replace_from O old new s')
      end
  end.

Definition replace (old new s : string) : string := replace_from O old new s.

(** [c.isspace()] on ASCII: tab, line feed, vertical tab, form feed,
    carriage return, the four separators 28..31 and the space. *)
Definition isspace (c : ascii) : bool :=
  let n := nat_of_ascii c in
  (((9 <=? n) && (n <=? 13)) || ((28 <=? n) && (n <=? 32)))%nat.

Fixpoint lstrip (s : string) : string :=
  match s with
  | EmptyString => EmptyString
  | String c s' => if isspace c then lstrip s' else s
  end.

Fixpoint rstrip (s : string) : string :=
  match s with
  | EmptyString => EmptyString
  | String c s' =>
      match rstrip s' with
      | EmptyString => if isspace c then EmptyString else String c EmptyString
      | r => String c r
      end
  end.

(** [s.strip()] *)
Definition strip (s : string) : string := rstrip (lstrip s).

Definition islower (c : ascii) : bool :=
  let n := nat_of_ascii c in ((97 <=? n) && (n <=? 122))%nat.

Definition isupper (c : ascii) : bool :=
  let n := nat_of_ascii c in ((65 <=? n) && (n <=? 90))%nat.

Definition upper (c : ascii) : ascii :=
  if islower c then ascii_of_nat (nat_of_ascii c - 32) else c.

Definition lower (c : ascii) : ascii :=
  if isupper c then ascii_of_nat (nat_of_ascii c + 32) else c.

(** [s.title()]: a cased character is upper-cased when the previous
    character is not cased and lower-cased when it is. *)
Fixpoint title_from (previous_is_cased : bool) (s : string) : string :=
  match s with
  | EmptyString => EmptyString
  | String c s' =>
      if islower c then
        String (if previous_is_cased then c else upper c) (title_from true s')
      else if isupper c then
        String (if previous_is_cased then lower c else c) (title_from true s')
      else String c (title_from false s')
  end.

Definition title (s : string) : string := title_from false s.

Definition newline : ascii := ascii_of_nat 10.

(** [re.search(r'^(.*?) IPO', s)], returning [group(1)].  The pattern is
    anchored at the start of the string, the group is lazy and [.] does
    not match a line feed: the group is the text before the first
    [" IPO"], provided no line feed comes before it. *)
Fixpoint search_before_IPO (s : string) : option string :=
  if startswith " IPO" s then Some EmptyString
  else match s with
       | EmptyString => None
       | String c s' =>
           if Ascii.eqb c newline then None
           else option_map (String c) (search_before_IPO s')
       end.

End PyStr.

(* ================================================================= *)
(** ** The parse tree and the BeautifulSoup queries *)

Module Soup.

(** A node of the tree is a string ([NavigableString]) or a tag with its
    name, its attribute dictionary and its children.  The parser stores
    one value per attribute name, so [attrs] has no duplicate key. *)
#[warnings="-register-all"]
Inductive node : Type :=
| Text (s : string)
| Tag (name : string) (attrs : list (string * string)) (children : list node).

(** The document ([BeautifulSoup] object) is the list of its top nodes. *)
Definition markup : Type := list node.

Definition name_is (n : string) (x : node) : bool :=
  match x with
  | Text _ => false
  | Tag m _ _ => String.eqb m n
  end.

(** [tag.attrs.get(key)] *)
Fixpoint get (key : string) (attrs : list (string * string)) : option string :=
  match attrs with
  | [] => None
  | (k, v) :: rest => if String.eqb k key then Some v else get key rest
  end.

Definition attr (key : string) (x : node) : option string :=
  match x with
  | Text _ => None
  | Tag _ a _ => get key a
  end.

(** [tag.descendants]: every node below [x], in document order. *)
Fixpoint descendants (x : node) : list node :=
  match x with
  | Text _ => []
  | Tag _ _ kids => flat_map (fun k => k :: descendants k) kids
  end.

(** The descendants of [x] with, for each, the chain of its ancestors,
    nearest first ([.parents]); [anc] is the chain of [x] itself. *)
Fixpoint located_below (anc : list node) (x : node) : list (list node * node) :=
  match x with
  | Text _ => []
  | Tag _ _ kids =>
      flat_map (fun k => (x :: anc, k) :: located_below (x :: anc) k) kids
  end.

(** Every node of the document with its ancestors, in document order. *)
Definition located (doc : markup) : list (list node * node) :=
  flat_map (fun k => ([], k) :: located_below [] k) doc.

(** [tag.string]: the single string of a tag, looked for through a chain
    of only children; [None] when a tag on the way has no child or several. *)
Fixpoint tag_string (x : node) : option string :=
  match x with
  | Text s => Some s
  | Tag _ _ [k] => tag_string k
  | Tag _ _ _ => None
  end.

(** The strings below [x] in document order ([_all_strings]). *)
Fixpoint strings (x : node) : list string :=
  match x with
  | Text s => [s]
  | Tag _ _ kids => flat_map strings kids
  end.

(** [tag.get_text(strip=True)]: each string is stripped, the empty ones
    are dropped and the rest is joined without separator. *)
Definition get_text_strip (x : node) : string :=
  String.concat ""
    (filter (fun s => negb (String.eqb s "")) (map PyStr.strip (strings x))).

(** [soup.find(name, string=p)]: the first tag of that name whose
    [.string] satisfies [p], which receives [None] as well. *)
Definition find_by_string (name : string) (p : option string -> bool)
    (doc : markup) : option (list node * node) :=
  List.find (fun l => name_is name (snd l) && p (tag_string (snd l)))
            (located doc).

(** [tag.find_parent(name)] on a located tag *)
Definition find_parent (name : string) (l : list node * node) : option node :=
  List.find (name_is name) (fst l).

(** [tag.find_all(name)] *)
Definition find_all (name : string) (x : node) : list node :=
  filter (name_is name) (descendants x).

(** [tag.find(name)] *)
Definition find (name : string) (x : node) : option node :=
  List.find (name_is name) (descendants x).

(** [tag.find(name, {key: p})]: [p] receives the attribute's value, or
    [None] when the tag does not have the attribute. *)
Definition find_by_attr (name key : string) (p : option string -> bool)
    (x : node) : option node :=
  List.find (fun d => name_is name d && p (attr key d)) (descendants x).

End Soup.

(* ================================================================= *)
(** ** The scraper *)

Module Scraper.
Import Soup.

(** The placeholder every local variable of an iteration starts with. *)
Definition NA : string := "N/A".

(** The caption that identifies the subscription table. *)
Definition caption_phrase : string := "IPO Bidding Live Updates from BSE, NSE".

(** *** Company name (lines 104-114) *)

(** The [for part in url_parts] loop: the first part that contains
    ["-ipo"] gives the name and ends the loop; with no such part the
    variable keeps its value. *)
Fixpoint name_from_parts (url_parts : list string) (company_name : string)
  : string :=
  match url_parts with
  | [] => company_name
  | part :: rest =>
      if PyStr.contains "-ipo" part
      then PyStr.title (PyStr.replace "-" " " (PyStr.replace "-ipo" "" part))
      else name_from_parts rest company_name
  end.

(** The value of [company_name] after lines 105-114, from the page title,
    the address and the value the variable had before. *)
Definition resolve_company_name (page_title url company_name : string)
  : string :=
  match PyStr.search_before_IPO page_title with
  | Some group1 => PyStr.strip group1
  | None => name_from_parts (PyStr.split "/" url) company_name
  end.

(** *** Subscription table (lines 116-145) *)

(** The exceptions the model distinguishes.  The first three are
    Selenium's; [AttributeError] is what a method call on [None] raises;
    [OtherException] stands for any other subclass of [Exception]. *)
Inductive exn : Type :=
| TimeoutException
| NoSuchElementException
| WebDriverException
| AttributeError
| OtherException.

Record metrics : Type := mkMetrics {
  qib : string;
  nii : string;
  rii : string;
  total : string
}.

(** What the block does to the four variables: it assigns them from the
    last row, or leaves them alone on one of its three [else] branches. *)
Inductive extracted : Type :=
| Found (m : metrics)
| NoRows
| NoParentTable
| NoCaption.

(** [lambda text: text and caption_phrase in text] *)
Definition caption_matches (text : option string) : bool :=
  match text with
  | None => false
  | Some t => negb (String.eqb t "") && PyStr.contains caption_phrase t
  end.

(** [lambda x: x and marker in x] *)
Definition title_has (marker : string) (x : option string) : bool :=
  match x with
  | None => false
  | Some v => negb (String.eqb v "") && PyStr.contains marker v
  end.

(** [last_row.find('td', {'data-title': ...})] then
    [td.get_text(strip=True) if td else "N/A"] *)
Definition cell (marker : string) (last_row : node) : string :=
  match find_by_attr "td" "data-title" (title_has marker) last_row with
  | Some td => get_text_strip td
  | None => NA
  end.

Definition row_metrics (last_row : node) : metrics :=
  {| qib := cell "QIB" last_row;
     nii := cell "NII" last_row;
     rii := cell "RII" last_row;
     total := cell "Total" last_row |}.

(** The rows the block works on, when it gets that far:
    [table_element.find('tbody').find_all('tr')].  [find('tbody')] is
    [None] for a table without [tbody], and the call of [find_all] on it
    raises. *)
Definition body_rows (table_element : node) : exn + list node :=
  match find "tbody" table_element with
  | None => inl AttributeError
  | Some tbody => inr (find_all "tr" tbody)
  end.

Definition extract (soup : markup) : exn + extracted :=
  match find_by_string "caption" caption_matches soup with
  | Some ipo_table =>
      match find_parent "table" ipo_table with
      | Some table_element =>
          match body_rows table_element with
          | inl e => inl e
          | inr rows =>
              match rows with
              | _ :: _ => inr (Found (row_metrics (last rows (Text ""))))
              | [] => inr NoRows
              end
          end
      | None => inr NoParentTable
      end
  | None => inr NoCaption
  end.

(** *** The browser and the output *)

Inductive message : Type :=
| ExcelFileNotFound
| ColumnNotFound
| AvailableColumns
| ErrorReadingExcel
| ErrorInitializingWebDriver (e : exn)
| NavigatingTo (url : string)
| NoRowsFound (company_name url : string)
| ParentTableNotFound (company_name url : string)
| CaptionNotFound (company_name url : string)
| TimeoutOn (url : string)
| ElementNotFoundOn (url : string)
| WebDriverErrorFor (url : string) (e : exn)
| GenericErrorScraping (url : string) (e : exn).

(** What the function does to the outside, in the order it does it:
    the calls on the driver, the pauses and the lines it prints. *)
Inductive event : Type :=
| StartChrome
| Get (url : string)
| ExecuteScript
| WaitForCaption
| PageSource
| Title
| Quit
| Sleep (seconds : nat)
| Print (m : message).

(** The browser and the sites behind it.  Each call of the driver either
    raises or returns; what it does may depend on everything that happened
    before, which the call receives as the list of events so far.
    [page_source] gives the page source as [html.parser] parses it.
    [quit] always returns. *)
Record Web : Type := mkWeb {
  start_chrome : option exn;
  get_page : list event -> string -> option exn;
  execute_script : list event -> option exn;
  wait_for_caption : list event -> option exn;
  page_source : list event -> exn + markup;
  title : list event -> exn + string
}.

(** The local variables of an iteration, with the events so far. *)
Record store : Type := mkStore {
  events : list event;
  company_name : string;
  qib_sub : string;
  nii_sub : string;
  rii_sub : string;
  total_sub : string
}.

Definition log (e : event) (st : store) : store :=
  mkStore (events st ++ [e]) (company_name st)
          (qib_sub st) (nii_sub st) (rii_sub st) (total_sub st).

Definition set_company_name (v : string) (st : store) : store :=
  mkStore (events st) v (qib_sub st) (nii_sub st) (rii_sub st) (total_sub st).

Definition set_subs (m : metrics) (st : store) : store :=
  mkStore (events st) (company_name st) (qib m) (nii m) (rii m) (total m).

(** Statements of the [try] block: a statement changes the store and then
    either raises or yields a value.  What was assigned before an
    exception stays assigned. *)
Definition M (A : Type) : Type := store -> store * (exn + A).

Definition ret {A} (a : A) : M A := fun st => (st, inr a).

Definition bind {A B} (m : M A) (k : A -> M B) : M B :=
  fun st =>
    match m st with
    | (st', inr a) => k a st'
    | (st', inl e) => (st', inl e)
    end.

Notation "x <- m ;; k" := (bind m (fun x => k))
  (at level 61, m at next level, right associativity).
Notation "m ;; k" := (bind m (fun _ => k))
  (at level 61, right associativity).

Definition emit (e : event) : M unit := fun st => (log e st, inr tt).

Definition modify (f : store -> store) : M unit := fun st => (f st, inr tt).

Definition read {A} (f : store -> A) : M A := fun st => (st, inr (f st)).

(** A call on the driver: it is recorded, then the web answers from the
    events before it. *)
Definition call_unit (e : event) (answer : list event -> option exn) : M unit :=
  fun st =>
    (log e st,
     match answer (events st) with
     | Some x => inl x
     | None => inr tt
     end).

Definition call_value {A} (e : event) (answer : list event -> exn + A) : M A :=
  fun st => (log e st, answer (events st)).

Definition of_result {A} (r : exn + A) : M A := fun st => (st, r).

(** The first half of the [try] statement (lines 82-105): the page is
    loaded, scrolled and waited for, then its source and title are read. *)
Definition acquire (w : Web) (url : string) : M (markup * string) :=
  emit (Print (NavigatingTo url)) ;;
  call_unit (Get url) (fun evs => get_page w evs url) ;;
  call_unit ExecuteScript (execute_script w) ;;
  emit (Sleep 3) ;;
  call_unit WaitForCaption (wait_for_caption w) ;;
  soup <- call_value PageSource (page_source w) ;;
  page_title <- call_value Title (title w) ;;
  ret (soup, page_title).

(** The second half (lines 106-145): the name, then the table. *)
Definition fill (url : string) (page : markup * string) : M unit :=
  let (soup, page_title) := page in
  modify (fun st =>
    set_company_name (resolve_company_name page_title url (company_name st)) st) ;;
  found <- of_result (extract soup) ;;
  name <- read company_name ;;
  match found with
  | Found m => modify (set_subs m)
  | NoRows => emit (Print (NoRowsFound name url))
  | NoParentTable => emit (Print (ParentTableNotFound name url))
  | NoCaption => emit (Print (CaptionNotFound name url))
  end.

(** The body of the [try] statement (lines 82-145). *)
Definition try_body (w : Web) (url : string) : M unit :=
  page <- acquire w url ;; fill url page.

(** The [except] clauses (lines 147-154), tried in order: the two
    subclasses of [WebDriverException] first, then the class itself, then
    [Exception]. *)
Definition handler (url : string) (e : exn) : message :=
  match e with
  | TimeoutException => TimeoutOn url
  | NoSuchElementException => ElementNotFoundOn url
  | WebDriverException => WebDriverErrorFor url e
  | AttributeError | OtherException => GenericErrorScraping url e
  end.

(** A row of the output (the dictionary of lines 157-164). *)
Record record : Type := mkRecord {
  Company_Name : string;
  IPO_Link : string;
  QIB_Subscription : string;
  NII_Subscription : string;
  RII_Subscription : string;
  Total_Subscription : string
}.

Definition record_of (url : string) (st : store) : record :=
  mkRecord (company_name st) url
           (qib_sub st) (nii_sub st) (rii_sub st) (total_sub st).

(** The store after the [try] statement of one iteration: the variables
    are set to ["N/A"], the body runs, and an exception is printed by its
    handler. *)
Definition attempt (w : Web) (url : string) (evs : list event) : store :=
  match try_body w url (mkStore evs NA NA NA NA NA) with
  | (st, inr _) => st
  | (st, inl e) => log (Print (handler url e)) st
  end.

(** One iteration of the [for] loop (lines 74-165), on the events so far
    and [scraped_data]. *)
Definition iteration (w : Web) (url : string)
    (s : list event * list record) : list event * list record :=
  let st := attempt w url (fst s) in
  (events st ++ [Sleep 1], snd s ++ [record_of url st]).

Definition for_loop (w : Web) (ipo_urls : list string)
    (s : list event * list record) : list event * list record :=
  fold_left (fun s url => iteration w url s) ipo_urls s.

(** The outcome of reading the workbook (lines 26-31): the addresses of
    the column without its empty cells, or one of the exceptions the
    three [except] clauses of lines 33-42 catch.  A [KeyError] has two
    origins, which the handler of lines 36-39 does not tell apart:
    [KeyError] is the one of [df[url_column_name]], raised when [df] is
    assigned; [KeyErrorInReadExcel] is the one of [pd.read_excel] itself,
    raised before [df] is assigned. *)
Inductive workbook : Type :=
| FileNotFoundError
| KeyError
| KeyErrorInReadExcel
| ReadFailure
| Column (ipo_urls : list string).

(** The exception that no clause of the function catches: line 38 reads
    [df], and raises when [df] was never assigned. *)
Inductive uncaught : Type :=
| UnboundLocalError.

(** How a call of the function ends: it returns [None] or the rows of the
    data frame, or an exception leaves it. *)
Inductive ending : Type :=
| Returns (value : option (list record))
| Raises (e : uncaught).

(** [scrape_ipo_subscription_data]: the events of the run and how the
    call ends.  After a [KeyError] the handler prints its first line and
    then the columns of [df]; when [df] is not assigned, this second
    [print] raises and the function does not return. *)
Definition scrape_ipo_subscription_data (w : Web) (book : workbook)
  : list event * ending :=
  match book with
  | FileNotFoundError => ([Print ExcelFileNotFound], Returns None)
  | KeyError =>
      ([Print ColumnNotFound; Print AvailableColumns], Returns None)
  | KeyErrorInReadExcel => ([Print ColumnNotFound], Raises UnboundLocalError)
  | ReadFailure => ([Print ErrorReadingExcel], Returns None)
  | Column ipo_urls =>
      match start_chrome w with
      | Some e =>
          ([StartChrome; Print (ErrorInitializingWebDriver e)], Returns None)
      | None =>
          let s := for_loop w ipo_urls ([StartChrome], []) in
          (fst s ++ [Quit], Returns (Some (snd s)))
      end
  end.

End Scraper.

(* ================================================================= *)
(** ** Notions used to state the properties *)

Import Soup Scraper.

Definition unmarked (part : string) : Prop := PyStr.contains "-ipo" part = false.

(** The name an address part gives once it is chosen (line 113). *)
Definition slug_name (part : string) : string :=
  PyStr.title (PyStr.replace "-" " " (PyStr.replace "-ipo" "" part)).

(** The test [last_row.find('td', {'data-title': ...})] applies to the
    nodes below the row. *)
Definition is_cell (marker : string) (d : node) : bool :=
  name_is "td" d && title_has marker (attr "data-title" d).


(** What one iteration adds, from the events before it. *)
Definition step_events (w : Web) (url : string) (evs : list event)
  : list event :=
  events (attempt w url evs) ++ [Sleep 1].

Definition step_record (w : Web) (url : string) (evs : list event) : record :=
  record_of url (attempt w url evs).

Fixpoint events_after (w : Web) (ipo_urls : list string) (evs : list event)
  : list event :=
  match ipo_urls with
  | [] => evs
  | url :: rest => events_after w rest (step_events w url evs)
  end.

Fixpoint records_from (w : Web) (ipo_urls : list string) (evs : list event)
  : list record :=
  match ipo_urls with
  | [] => []
  | url :: rest =>
      step_record w url evs :: records_from w rest (step_events w url evs)
  end.

(** [respects R m]: running [m] takes a store to one related to it by [R],
    whether [m] raises or not. *)
Definition respects {A} (R : store -> store -> Prop) (m : M A) : Prop :=
  forall st, R st (fst (m st)).

(** The five variables are what they were. *)
Definition same_variables (a b : store) : Prop :=
  company_name b = company_name a /\
  qib_sub b = qib_sub a /\
  nii_sub b = nii_sub a /\
  rii_sub b = rii_sub a /\
  total_sub b = total_sub a.

(** The events are what they were, followed by events other than [Quit]. *)
Definition no_quit_since (a b : store) : Prop :=
  exists added, events b = events a ++ added /\ ~ In Quit added.

(** The store an iteration starts its [try] statement with. *)
Definition fresh (evs : list event) : store := mkStore evs NA NA NA NA NA.

(** The record with every field at its placeholder. *)
Definition sentinel_record (url : string) : record :=
  mkRecord "N/A" url "N/A" "N/A" "N/A" "N/A".

(** The four values the block leaves in the variables of a fresh store. *)
Definition metrics_of (soup : markup) : metrics :=
  match extract soup with
  | inr (Found m) => m
  | _ => mkMetrics NA NA NA NA
  end.

(** The record of an address whose page was loaded with this source and
    this title. *)
Definition record_of_page (url : string) (soup : markup) (page_title : string)
  : record :=
  let m := metrics_of soup in
  mkRecord (resolve_company_name page_title url NA) url
           (qib m) (nii m) (rii m) (total m).

(** An exception of Selenium comes from the first half of the [try]
    statement, where no variable has been assigned yet. *)
Definition from_selenium (e : exn) : Prop :=
  e = TimeoutException \/ e = WebDriverException \/ e = NoSuchElementException.

(* ================================================================= *)
(** ** Sample pages and sample webs *)

(** A page with one table under the marker caption; [inside] is what
    follows the caption in the table. *)
Definition page_with_table (inside : list node) : markup :=
  [Tag "html" []
     [Tag "head" [] [Tag "title" [] [Text "Acme Corp IPO"]];
      Tag "body" []
        [Tag "div" [("class", "table-responsive")]
           [Tag "table" [("class", "table")]
              (Tag "caption" [] [Text caption_phrase] :: inside)]]]].

Definition data_cell (data_title text : string) : node :=
  Tag "td" [("data-title", data_title)] [Text text].

Definition two_day_page : markup :=
  page_with_table
    [Tag "thead" [] [Tag "tr" [] [Tag "th" [] [Text "Date"]]];
     Tag "tbody" []
       [Tag "tr" []
          [data_cell "Date" "Day 1"; data_cell "QIB" "0.10"; data_cell "NII" "0.52";
           data_cell "RII" "1.31"; data_cell "Total" "0.74"];
        Text "
";
        Tag "tr" []
          [data_cell "Date" "Day 2"; data_cell "QIB" "12.45"; data_cell "NII" "30.08";
           data_cell "RII" "8.77"; data_cell "Total" "14.92"]]].


(** The address the browser is at, from the events. *)
Definition current_url (evs : list event) : string :=
  fold_left (fun url e => match e with Get v => v | _ => url end) evs "".

(** A web of three pages: the first and the third load, each with its own
    table; the second never finishes loading. *)
Definition acme_url : string := "https://example.com/ipo/acme-corp-ipo/1/".
Definition slow_url : string := "https://example.com/ipo/slow-ipo/2/".
Definition zeta_url : string := "https://example.com/ipo/zeta-ipo/3/".

Definition zeta_page : markup :=
  page_with_table
    [Tag "tbody" []
       [Tag "tr" []
          [data_cell "QIB" "1.00"; data_cell "NII" "2.00";
           data_cell "RII" "3.00"; data_cell "Total" "2.10"]]].

Definition three_pages : Web :=
  mkWeb None
    (fun _ url => if String.eqb url slow_url then Some TimeoutException else None)
    (fun _ => None)
    (fun _ => None)
    (fun evs =>
       inr (if String.eqb (current_url evs) acme_url
            then two_day_page else zeta_page))
    (fun evs =>
       inr (if String.eqb (current_url evs) acme_url
            then "Acme Corp IPO Date, Price, GMP" else "Subscription Status")).

(** A web where every page load times out. *)
Definition all_timeouts : Web :=
  mkWeb None
    (fun _ _ => Some TimeoutException)
    (fun _ => None)
    (fun _ => None)
    (fun _ => inr [])
    (fun _ => inr "").

(* ================================================================= *)
(** ** Notions used to state the further properties *)

(** The one-character string of a line feed. *)
Definition line_feed : string := String PyStr.newline "".

(** What a row is made of on an ordinary page: cells with a
    [data-title] and a text, and the strings between them. *)
Inductive piece : Type :=
| Gap (text : string)
| Cell (data_title text : string).

Definition node_of (p : piece) : node :=
  match p with
  | Gap text => Text text
  | Cell data_title text => data_cell data_title text
  end.

Definition plain_row (attrs : list (string * string)) (pieces : list piece)
  : node :=
  Tag "tr" attrs (map node_of pieces).

Definition cell_for (marker : string) (p : piece) : bool :=
  match p with
  | Gap _ => false
  | Cell data_title _ => PyStr.contains marker data_title
  end.







(** A string, not empty, that [strip] leaves alone on both sides. *)
Definition tidy (s : string) : Prop :=
  s <> "" /\ PyStr.lstrip s = s /\ PyStr.rstrip s = s.

(** The four subscription values of a record have no white space at
    their ends. *)
Definition trimmed_values (r : record) : Prop :=
  PyStr.strip (QIB_Subscription r) = QIB_Subscription r /\
  PyStr.strip (NII_Subscription r) = NII_Subscription r /\
  PyStr.strip (RII_Subscription r) = RII_Subscription r /\
  PyStr.strip (Total_Subscription r) = Total_Subscription r.

(** The calls and the pause of an iteration whose page loads, in the
    order of lines 83-105. *)
Definition page_calls (url : string) : list event :=
  [Get url; ExecuteScript; Sleep 3; WaitForCaption; PageSource; Title].

Definition is_print (e : event) : bool :=
  match e with
  | Print _ => true
  | _ => false
  end.

Definition is_driver_call (e : event) : bool :=
  match e with
  | StartChrome | Get _ | ExecuteScript | WaitForCaption | PageSource
  | Title | Quit => true
  | Sleep _ | Print _ => false
  end.

(** The driver calls of an iteration, as lines 83-105 order them: [get]
    is called, and each later call is made only when every call before it
    returned; a call is answered from the events before it. *)
Definition calls_until_failure (w : Web) (url : string) (evs : list event)
  : list event :=
  let h1 := evs ++ [Print (NavigatingTo url)] in
  let h2 := h1 ++ [Get url] in
  let h3 := (h2 ++ [ExecuteScript]) ++ [Sleep 3] in
  let h4 := h3 ++ [WaitForCaption] in
  match get_page w h1 url with
  | Some _ => [Get url]
  | None =>
      match execute_script w h2 with
      | Some _ => [Get url; ExecuteScript]
      | None =>
          match wait_for_caption w h3 with
          | Some _ => [Get url; ExecuteScript; WaitForCaption]
          | None =>
              match page_source w h4 with
              | inl _ => [Get url; ExecuteScript; WaitForCaption; PageSource]
              | inr _ =>
                  [Get url; ExecuteScript; WaitForCaption; PageSource; Title]
              end
          end
      end
  end.

(** The addresses the browser was sent to, in order. *)
Definition visited (evs : list event) : list string :=
  flat_map (fun e => match e with Get url => [url] | _ => [] end) evs.

(** The seconds spent in [time.sleep]. *)
Definition seconds_slept (evs : list event) : nat :=
  list_sum (map (fun e => match e with Sleep n => n | _ => 0 end) evs).


(** A web whose pages do not change: what a call answers depends on
    the address the browser is at, or is sent to, and not on what
    happened before. *)
Definition stateless (w : Web) : Prop :=
  (forall evs evs' url, get_page w evs url = get_page w evs' url) /\
  (forall evs evs', current_url evs = current_url evs' ->
     execute_script w evs = execute_script w evs') /\
  (forall evs evs', current_url evs = current_url evs' ->
     wait_for_caption w evs = wait_for_caption w evs') /\
  (forall evs evs', current_url evs = current_url evs' ->
     page_source w evs = page_source w evs') /\
  (forall evs evs', current_url evs = current_url evs' ->
     title w evs = title w evs').

(** *** The script around the function (lines 177-191) *)

Inductive script_line : Type :=
| StartingScraping
| ScrapingComplete (file : string)
| SampleOfData
| Head (rows : list record)
| ScrapingFailed.

(** What the script does: what the function does, the lines the script
    prints itself, and the call of [to_excel]. *)
Inductive script_event : Type :=
| Ran (e : event)
| Said (l : script_line)
| ToExcel (file : string) (rows : list record).

Definition output_excel_file : string := "scraped_ipo_subscription_data.xlsx".

(** The script, for a web, an outcome of reading [GMP_enabled.xlsm] and
    an outcome of [to_excel]: when [to_excel] raises, nothing catches the
    exception and the script ends there; it also ends where the function
    raises. *)
Definition script (w : Web) (book : workbook)
    (to_excel : list record -> option exn) : list script_event :=
  let (evs, ended) := scrape_ipo_subscription_data w book in
  Said StartingScraping :: map Ran evs ++
  match ended with
  | Returns (Some rows) =>
      ToExcel output_excel_file rows ::
      match to_excel rows with
      | Some _ => []
      | None =>
          [Said (ScrapingComplete output_excel_file); Said SampleOfData;
           Said (Head (firstn 5 rows))]
      end
  | Returns None => [Said ScrapingFailed]
  | Raises _ => []
  end.




(** A web whose every page has the marker caption in a table without
    [tbody]. *)
Definition bare_tables : Web :=
  mkWeb None (fun _ _ => None) (fun _ => None) (fun _ => None)
    (fun _ => inr (page_with_table []))
    (fun _ => inr "Acme Corp IPO Date").

(* ================================================================= *)
(** * Properties *)

(** ** The string operations on sample inputs *)

Example split_url :
  PyStr.split "/" "https://x.in/ipo/acme-corp-ipo/12/"
  = ["https:"; ""; "x.in"; "ipo"; "acme-corp-ipo"; "12"; ""].
Proof. reflexivity. Qed.

Example replace_marker :
  PyStr.replace "-ipo" "" "acme-ipo-corp-ipo" = "acme-corp".
Proof. reflexivity. Qed.

Example replace_no_overlap : PyStr.replace "aa" "b" "aaa" = "ba".
Proof. reflexivity. Qed.

Example title_slug : PyStr.title "acme corp 2nd" = "Acme Corp 2Nd".
Proof. reflexivity. Qed.

Example title_lowers : PyStr.title "ACME corp" = "Acme Corp".
Proof. reflexivity. Qed.

Example strip_cell : PyStr.strip "  2.35x
 " = "2.35x".
Proof. reflexivity. Qed.

Example search_title :
  PyStr.search_before_IPO "Acme Corp IPO Date, Price, GMP" = Some "Acme Corp".
Proof. reflexivity. Qed.

Example search_title_lazy :
  PyStr.search_before_IPO "A IPO B IPO" = Some "A".
Proof. reflexivity. Qed.

Example search_title_none : PyStr.search_before_IPO "IPO Dashboard" = None.
Proof. reflexivity. Qed.

(** ** The company name *)

(** A list of parts checked by computation. *)
Lemma unmarked_all (parts : list string) :
  forallb (fun part => negb (PyStr.contains "-ipo" part)) parts = true ->
  Forall unmarked parts.
Proof.
  induction parts as [|part rest IH]; cbn [forallb].
  - constructor.
  - intros H. apply andb_true_iff in H. destruct H as [Hpart Hrest].
    constructor.
    + unfold unmarked. destruct (PyStr.contains "-ipo" part);
        [discriminate Hpart | reflexivity].
    + apply IH, Hrest.
Qed.

Lemma name_from_parts_unmarked (parts : list string) (name : string) :
  Forall unmarked parts -> name_from_parts parts name = name.
Proof.
  induction 1 as [|part rest Hpart _ IH]; simpl.
  - reflexivity.
  - rewrite Hpart. exact IH.
Qed.

Lemma name_from_parts_first (before after : list string) (part name : string) :
  Forall unmarked before ->
  PyStr.contains "-ipo" part = true ->
  name_from_parts (before ++ part :: after) name = slug_name part.
Proof.
  intros Hbefore Hpart.
  induction Hbefore as [|p rest Hp _ IH]; simpl.
  - rewrite Hpart. reflexivity.
  - rewrite Hp. exact IH.
Qed.

(** Either no part carries the marker, or there is a first one. *)
Lemma first_marked_part (parts : list string) :
  Forall unmarked parts \/
  exists before part after,
    parts = before ++ part :: after /\
    Forall unmarked before /\
    PyStr.contains "-ipo" part = true.
Proof.
  induction parts as [|p rest IH].
  - left. constructor.
  - destruct (PyStr.contains "-ipo" p) eqn:Hp.
    + right. exists [], p, rest. repeat split; auto.
    + destruct IH as [Hall | (before & part & after & Heq & Hb & Hm)].
      * left. constructor; assumption.
      * right. exists (p :: before), part, after. subst rest.
        repeat split; auto.
Qed.

Lemma title_from_empty (cased : bool) (s : string) :
  PyStr.title_from cased s = "" <-> s = "".
Proof.
  destruct s as [|c s]; cbn [PyStr.title_from].
  - tauto.
  - destruct (PyStr.islower c); [|destruct (PyStr.isupper c)];
      split; intro H; discriminate H.
Qed.

Lemma replace_dash_empty (s : string) :
  PyStr.replace "-" " " s = "" <-> s = "".
Proof.
  destruct s as [|c s]; unfold PyStr.replace;
    cbn [PyStr.replace_from PyStr.startswith].
  - tauto.
  - destruct (Ascii.eqb "-" c); cbn [andb String.append];
      split; intro H; discriminate H.
Qed.

Lemma slug_name_empty (part : string) :
  slug_name part = "" <-> PyStr.replace "-ipo" "" part = "".
Proof.
  unfold slug_name, PyStr.title.
  rewrite title_from_empty. apply replace_dash_empty.
Qed.

(** The three outcomes of lines 105-114. *)
Lemma resolve_by_title (page_title url name group1 : string) :
  PyStr.search_before_IPO page_title = Some group1 ->
  resolve_company_name page_title url name = PyStr.strip group1.
Proof. unfold resolve_company_name. intros ->. reflexivity. Qed.

Lemma resolve_by_address (page_title url name : string) :
  PyStr.search_before_IPO page_title = None ->
  resolve_company_name page_title url name
  = name_from_parts (PyStr.split "/" url) name.
Proof. unfold resolve_company_name. intros ->. reflexivity. Qed.

(** C7, as stated, fails: with a title that does not match and an address
    whose first marked part is the marker alone, the name is empty. *)
Lemma company_name_can_be_empty :
  resolve_company_name "Not Found" "https://example.com/-ipo/" NA = "".
Proof. reflexivity. Qed.

(** C7 (amended): the company name is ["N/A"] when the title does not
    match and no part of the address contains ["-ipo"]; it is empty exactly
    when the title matches with only white space before its first
    [" IPO"], or the
    title does not match and the first part of the address containing
    ["-ipo"] is nothing but such markers; in every other case it is a
    non-empty string. *)
Theorem company_name_nonempty_unless (page_title url : string) :
  (PyStr.search_before_IPO page_title = None ->
   Forall unmarked (PyStr.split "/" url) ->
   resolve_company_name page_title url NA = "N/A") /\
  (resolve_company_name page_title url NA = "" <->
   (exists group1,
      PyStr.search_before_IPO page_title = Some group1 /\
      PyStr.strip group1 = "") \/
   (PyStr.search_before_IPO page_title = None /\
    exists before part after,
      PyStr.split "/" url = before ++ part :: after /\
      Forall unmarked before /\
      PyStr.contains "-ipo" part = true /\
      PyStr.replace "-ipo" "" part = "")).
Proof.
  split.
  - intros Htitle Hparts.
    rewrite (resolve_by_address _ _ _ Htitle).
    apply name_from_parts_unmarked, Hparts.
  - destruct (PyStr.search_before_IPO page_title) as [group1|] eqn:Htitle.
    + rewrite (resolve_by_title _ _ _ _ Htitle). split.
      * intro Hempty. left. exists group1. auto.
      * intros [(g & Hg & Hempty) | (Hnone & _)]; [|discriminate Hnone].
        injection Hg as <-. exact Hempty.
    + rewrite (resolve_by_address _ _ _ Htitle). split.
      * intro Hempty. right. split; [reflexivity|].
        destruct (first_marked_part (PyStr.split "/" url))
          as [Hall | (before & part & after & Heq & Hb & Hm)].
        -- rewrite (name_from_parts_unmarked _ _ Hall) in Hempty.
           discriminate Hempty.
        -- exists before, part, after. repeat split; auto.
           rewrite Heq, (name_from_parts_first _ _ _ _ Hb Hm) in Hempty.
           apply slug_name_empty, Hempty.
      * intros [(g & Hg & _) | (_ & before & part & after & Heq & Hb & Hm & He)];
          [discriminate Hg|].
        rewrite Heq, (name_from_parts_first _ _ _ _ Hb Hm).
        apply slug_name_empty, He.
Qed.

Lemma company_name_nonempty_unless_witness :
  resolve_company_name "Page" "https://example.com/ipo/12/" NA = "N/A" /\
  resolve_company_name " IPO" "https://example.com/ipo/12/" NA = "".
Proof.
  split.
  - apply (proj1 (company_name_nonempty_unless
                    "Page" "https://example.com/ipo/12/")).
    + reflexivity.
    + apply unmarked_all. reflexivity.
  - apply (proj2 (company_name_nonempty_unless
                    " IPO" "https://example.com/ipo/12/")).
    left. exists "". split; reflexivity.
Defined.

(** C8, as stated, fails: the part ["acme-corp-ipo"] is in the address,
    but an earlier part carries the marker and gives the name. *)
Lemma earlier_marked_part_wins :
  PyStr.search_before_IPO "Home" = None /\
  In "acme-corp-ipo" (PyStr.split "/" "https://example.com/pre-ipo/acme-corp-ipo/") /\
  resolve_company_name "Home" "https://example.com/pre-ipo/acme-corp-ipo/" NA
  = "Pre" /\
  "Pre" <> "Acme Corp".
Proof.
  repeat split.
  - simpl. tauto.
  - discriminate.
Qed.

(** C8 (amended): when the title does not match and ["acme-corp-ipo"] is
    the first part of the address, cut at ["/"], that contains ["-ipo"],
    the company name is ["Acme Corp"]. *)
Theorem name_fallback_acme (page_title url : string)
    (before after : list string) :
  PyStr.search_before_IPO page_title = None ->
  PyStr.split "/" url = before ++ "acme-corp-ipo" :: after ->
  Forall unmarked before ->
  resolve_company_name page_title url NA = "Acme Corp".
Proof.
  intros Htitle Hsplit Hbefore.
  rewrite (resolve_by_address _ _ _ Htitle), Hsplit.
  rewrite (name_from_parts_first before after "acme-corp-ipo" NA Hbefore);
    reflexivity.
Qed.

Lemma name_fallback_acme_witness :
  resolve_company_name "IPO Dashboard"
    "https://example.com/ipo/acme-corp-ipo/1234/" NA = "Acme Corp".
Proof.
  apply (name_fallback_acme _ _ ["https:"; ""; "example.com"; "ipo"]
                            ["1234"; ""]).
  - reflexivity.
  - reflexivity.
  - apply unmarked_all. reflexivity.
Defined.

(** ** The subscription table *)

Section Extraction.

Variable soup : markup.

Lemma extract_without_caption :
  find_by_string "caption" caption_matches soup = None ->
  extract soup = inr NoCaption.
Proof. unfold extract. intros ->. reflexivity. Qed.

Variable ipo_table : list node * node.
Hypothesis caption_found :
  find_by_string "caption" caption_matches soup = Some ipo_table.

Lemma extract_without_parent_table :
  find_parent "table" ipo_table = None ->
  extract soup = inr NoParentTable.
Proof. unfold extract. rewrite caption_found. intros ->. reflexivity. Qed.

Variable table_element : node.
Hypothesis table_found : find_parent "table" ipo_table = Some table_element.

Lemma extract_in_table :
  extract soup =
  match body_rows table_element with
  | inl e => inl e
  | inr [] => inr NoRows
  | inr (r :: rows) => inr (Found (row_metrics (last (r :: rows) (Text ""))))
  end.
Proof.
  unfold extract. rewrite caption_found, table_found.
  destruct (body_rows table_element) as [e|[|r rows]]; reflexivity.
Qed.

Lemma extract_without_rows (tbody : node) :
  find "tbody" table_element = Some tbody ->
  find_all "tr" tbody = [] ->
  extract soup = inr NoRows.
Proof.
  intros Hbody Hrows. rewrite extract_in_table.
  unfold body_rows. rewrite Hbody, Hrows. reflexivity.
Qed.

Lemma extract_without_tbody :
  find "tbody" table_element = None ->
  extract soup = inl AttributeError.
Proof.
  intros Hbody. rewrite extract_in_table.
  unfold body_rows. rewrite Hbody. reflexivity.
Qed.


End Extraction.


(** C3: a table that has the marker caption and no [tbody] has no body
    rows, and the block raises on it instead of leaving the variables at
    ["N/A"] through its [else] branch. *)
Theorem table_without_tbody_raises :
  extract (page_with_table []) = inl AttributeError.
Proof. reflexivity. Qed.

(** *** The four cells of the row *)



Lemma cell_by_find (marker : string) (row : node) :
  cell marker row =
  match List.find (is_cell marker) (descendants row) with
  | Some td => get_text_strip td
  | None => NA
  end.
Proof. reflexivity. Qed.


Lemma get_text_strip_text (name : string) (attrs : list (string * string))
    (text : string) :
  get_text_strip (Tag name attrs [Text text]) = PyStr.strip text.
Proof.
  unfold get_text_strip. simpl.
  destruct (PyStr.strip text) as [|c s]; reflexivity.
Qed.

Lemma contains_in_empty (marker : string) :
  marker <> "" -> PyStr.contains marker "" = false.
Proof. destruct marker; [congruence | reflexivity]. Qed.

Lemma title_has_some (marker value : string) :
  marker <> "" ->
  title_has marker (Some value) = PyStr.contains marker value.
Proof.
  intros Hmarker. unfold title_has.
  destruct value as [|c v].
  - rewrite (contains_in_empty marker Hmarker). reflexivity.
  - reflexivity.
Qed.




(** ** The loop *)

Lemma for_loop_unfold (w : Web) (ipo_urls : list string)
    (evs : list event) (scraped_data : list record) :
  for_loop w ipo_urls (evs, scraped_data)
  = (events_after w ipo_urls evs, scraped_data ++ records_from w ipo_urls evs).
Proof.
  revert evs scraped_data.
  induction ipo_urls as [|url rest IH]; intros evs scraped_data.
  - simpl. rewrite app_nil_r. reflexivity.
  - change (for_loop w (url :: rest) (evs, scraped_data))
      with (for_loop w rest (iteration w url (evs, scraped_data))).
    unfold iteration. cbn [fst snd].
    rewrite IH. cbn [records_from events_after].
    rewrite <- app_assoc. reflexivity.
Qed.

Lemma records_from_links (w : Web) (ipo_urls : list string) (evs : list event) :
  map IPO_Link (records_from w ipo_urls evs) = ipo_urls.
Proof.
  revert evs. induction ipo_urls as [|url rest IH]; intros evs; simpl.
  - reflexivity.
  - rewrite IH. reflexivity.
Qed.

Lemma records_from_length (w : Web) (ipo_urls : list string) (evs : list event) :
  length (records_from w ipo_urls evs) = length ipo_urls.
Proof.
  rewrite <- (records_from_links w ipo_urls evs) at 2.
  symmetry. apply length_map.
Qed.

(** The record at a position is the one of that address's own iteration,
    run after the iterations of the addresses before it. *)
Lemma records_from_nth (w : Web) (ipo_urls : list string) (evs : list event)
    (i : nat) (url : string) :
  nth_error ipo_urls i = Some url ->
  nth_error (records_from w ipo_urls evs) i
  = Some (step_record w url (events_after w (firstn i ipo_urls) evs)).
Proof.
  revert evs i.
  induction ipo_urls as [|u rest IH]; intros evs [|i] Hnth;
    try discriminate Hnth.
  - injection Hnth as ->. reflexivity.
  - simpl in Hnth. simpl. apply IH, Hnth.
Qed.

(** C1: the loop appends one record per address, in the order of the
    addresses, each carrying its address; given the addresses, the
    function returns these records, or [None] when the browser could not
    be started, and does not raise. *)
Theorem one_record_per_address (w : Web) (ipo_urls : list string) :
  (forall evs,
     let scraped_data := snd (for_loop w ipo_urls (evs, [])) in
     length scraped_data = length ipo_urls /\
     map IPO_Link scraped_data = ipo_urls) /\
  match snd (scrape_ipo_subscription_data w (Column ipo_urls)) with
  | Returns (Some rows) =>
      length rows = length ipo_urls /\ map IPO_Link rows = ipo_urls
  | Returns None => start_chrome w <> None
  | Raises _ => False
  end.
Proof.
  split.
  - intros evs. rewrite for_loop_unfold. cbn [snd app].
    split; [apply records_from_length | apply records_from_links].
  - unfold scrape_ipo_subscription_data.
    destruct (start_chrome w) as [e|].
    + cbn [snd]. discriminate.
    + rewrite for_loop_unfold. cbn [snd app].
      split; [apply records_from_length | apply records_from_links].
Qed.

(** ** What the statements of the [try] block preserve *)

Section Respects.

Variable R : store -> store -> Prop.
Hypothesis R_refl : forall st, R st st.
Hypothesis R_trans : forall a b c, R a b -> R b c -> R a c.

Lemma respects_ret {A} (a : A) : respects R (ret a).
Proof. intros st. apply R_refl. Qed.

Lemma respects_of_result {A} (r : exn + A) : respects R (of_result r).
Proof. intros st. apply R_refl. Qed.

Lemma respects_read {A} (f : store -> A) : respects R (read f).
Proof. intros st. apply R_refl. Qed.

Lemma respects_modify (f : store -> store) :
  (forall st, R st (f st)) -> respects R (modify f).
Proof. intros Hf st. apply Hf. Qed.

Lemma respects_emit (e : event) :
  (forall st, R st (log e st)) -> respects R (emit e).
Proof. intros He st. apply He. Qed.

Lemma respects_call_unit (e : event) (answer : list event -> option exn) :
  (forall st, R st (log e st)) -> respects R (call_unit e answer).
Proof. intros He st. apply He. Qed.

Lemma respects_call_value {A} (e : event) (answer : list event -> exn + A) :
  (forall st, R st (log e st)) -> respects R (call_value e answer).
Proof. intros He st. apply He. Qed.

Lemma respects_bind {A B} (m : M A) (k : A -> M B) :
  respects R m -> (forall a, respects R (k a)) -> respects R (bind m k).
Proof.
  intros Hm Hk st. unfold bind.
  specialize (Hm st).
  destruct (m st) as [st' [e|a]]; cbn [fst] in *.
  - exact Hm.
  - exact (R_trans _ _ _ Hm (Hk a st')).
Qed.

End Respects.

Lemma same_variables_refl (st : store) : same_variables st st.
Proof. repeat split. Qed.

Lemma same_variables_trans (a b c : store) :
  same_variables a b -> same_variables b c -> same_variables a c.
Proof.
  unfold same_variables.
  intros (H1 & H2 & H3 & H4 & H5) (K1 & K2 & K3 & K4 & K5).
  repeat split; congruence.
Qed.

Lemma same_variables_log (e : event) (st : store) :
  same_variables st (log e st).
Proof. repeat split. Qed.

Lemma no_quit_since_refl (st : store) : no_quit_since st st.
Proof. exists []. rewrite app_nil_r. auto. Qed.

Lemma no_quit_since_trans (a b c : store) :
  no_quit_since a b -> no_quit_since b c -> no_quit_since a c.
Proof.
  intros (x & Hx & Nx) (y & Hy & Ny).
  exists (x ++ y). split.
  - rewrite Hy, Hx, app_assoc. reflexivity.
  - rewrite in_app_iff. tauto.
Qed.

Lemma no_quit_since_log (e : event) (st : store) :
  e <> Quit -> no_quit_since st (log e st).
Proof.
  intros He. exists [e]. split; [reflexivity|].
  intros [H|[]]. congruence.
Qed.

Lemma no_quit_since_same_events (a b : store) :
  events b = events a -> no_quit_since a b.
Proof. intros H. exists []. rewrite app_nil_r. auto. Qed.

Ltac step_by_step R_refl R_trans :=
  repeat first
    [ apply (respects_bind _ R_trans); [|intros ?; cbv beta]
    | match goal with
      | |- respects _ (match ?x with _ => _ end) => destruct x
      end
    | apply (respects_ret _ R_refl)
    | apply (respects_read _ R_refl)
    | apply (respects_of_result _ R_refl)
    | apply respects_emit
    | apply respects_call_unit
    | apply respects_call_value
    | apply respects_modify ].

(** Loading the page assigns none of the variables. *)
Lemma acquire_same_variables (w : Web) (url : string) :
  respects same_variables (acquire w url).
Proof.
  unfold acquire.
  step_by_step same_variables_refl same_variables_trans;
    intros st; apply same_variables_log.
Qed.

Lemma acquire_no_quit (w : Web) (url : string) :
  respects no_quit_since (acquire w url).
Proof.
  unfold acquire.
  step_by_step no_quit_since_refl no_quit_since_trans;
    intros st; apply no_quit_since_log; discriminate.
Qed.

Lemma fill_no_quit (url : string) (page : markup * string) :
  respects no_quit_since (fill url page).
Proof.
  destruct page as [soup page_title]. unfold fill.
  step_by_step no_quit_since_refl no_quit_since_trans;
    intros st;
    first [ apply no_quit_since_log; discriminate
          | apply no_quit_since_same_events; reflexivity ].
Qed.

Lemma try_body_no_quit (w : Web) (url : string) :
  respects no_quit_since (try_body w url).
Proof.
  unfold try_body.
  apply (respects_bind _ no_quit_since_trans).
  - apply acquire_no_quit.
  - intros page. apply fill_no_quit.
Qed.

(** ** One iteration *)

Lemma record_of_same_variables (url : string) (a b : store) :
  same_variables a b -> record_of url b = record_of url a.
Proof.
  intros (H1 & H2 & H3 & H4 & H5). unfold record_of. congruence.
Qed.

(** The only exception of the table block is the one of [body_rows]. *)
Lemma extract_raises_only (soup : markup) (e : exn) :
  extract soup = inl e -> e = AttributeError.
Proof.
  unfold extract, body_rows.
  destruct (find_by_string "caption" caption_matches soup) as [ipo_table|];
    [|discriminate].
  destruct (find_parent "table" ipo_table) as [table_element|];
    [|discriminate].
  destruct (find "tbody" table_element) as [tbody|].
  - destruct (find_all "tr" tbody); discriminate.
  - congruence.
Qed.

Lemma fill_raises_only (url : string) (page : markup * string)
    (st st' : store) (e : exn) :
  fill url page st = (st', inl e) -> e = AttributeError.
Proof.
  destruct page as [soup page_title].
  unfold fill, bind, modify, of_result, read, emit.
  destruct (extract soup) as [e'|found] eqn:Hextract.
  - intros H. injection H as _ <-. exact (extract_raises_only soup e' Hextract).
  - destruct found; discriminate.
Qed.

(** Once the page is loaded, the record is determined by its source, its
    title and the address. *)
Lemma fill_record (url : string) (soup : markup) (page_title : string)
    (st : store) :
  same_variables (fresh []) st ->
  record_of url (fst (fill url (soup, page_title) st))
  = record_of_page url soup page_title.
Proof.
  intros (H1 & H2 & H3 & H4 & H5). cbn in H1, H2, H3, H4, H5.
  unfold record_of_page, metrics_of, fill, bind, modify, of_result, read, emit.
  destruct (extract soup) as [e|[m| | |]];
    unfold record_of; cbn; congruence.
Qed.

Lemma attempt_record (w : Web) (url : string) (evs : list event) :
  record_of url (attempt w url evs)
  = record_of url (fst (try_body w url (fresh evs))).
Proof.
  unfold attempt. fold (fresh evs).
  destruct (try_body w url (fresh evs)) as [st [e|[]]]; reflexivity.
Qed.

Lemma attempt_loaded (w : Web) (url : string) (evs : list event)
    (st : store) (soup : markup) (page_title : string) :
  acquire w url (fresh evs) = (st, inr (soup, page_title)) ->
  record_of url (attempt w url evs) = record_of_page url soup page_title.
Proof.
  intros Hacquire.
  rewrite attempt_record. unfold try_body, bind. rewrite Hacquire.
  apply fill_record.
  pose proof (acquire_same_variables w url (fresh evs)) as Hsame.
  rewrite Hacquire in Hsame. exact Hsame.
Qed.

Lemma attempt_failed (w : Web) (url : string) (evs : list event)
    (st : store) (e : exn) :
  try_body w url (fresh evs) = (st, inl e) ->
  from_selenium e ->
  record_of url (attempt w url evs) = sentinel_record url.
Proof.
  intros Hbody Hkind.
  rewrite attempt_record, Hbody. cbn [fst].
  unfold try_body, bind in Hbody.
  pose proof (acquire_same_variables w url (fresh evs)) as Hsame.
  destruct (acquire w url (fresh evs)) as [st1 [e1|page]]; cbn [fst] in Hsame.
  - injection Hbody as <- _.
    rewrite (record_of_same_variables url _ _ Hsame). reflexivity.
  - apply fill_raises_only in Hbody. subst e.
    destruct Hkind as [H|[H|H]]; discriminate H.
Qed.

Lemma attempt_no_quit (w : Web) (url : string) (evs : list event) :
  exists added, events (attempt w url evs) = evs ++ added /\ ~ In Quit added.
Proof.
  unfold attempt. fold (fresh evs).
  pose proof (try_body_no_quit w url (fresh evs)) as Hbody.
  destruct (try_body w url (fresh evs)) as [st [e|[]]]; cbn [fst] in Hbody.
  - apply (no_quit_since_trans (fresh evs) st); [exact Hbody|].
    apply no_quit_since_log. discriminate.
  - exact Hbody.
Qed.

Lemma events_after_no_quit (w : Web) (ipo_urls : list string)
    (evs : list event) :
  exists added,
    events_after w ipo_urls evs = evs ++ added /\ ~ In Quit added.
Proof.
  revert evs. induction ipo_urls as [|url rest IH]; intros evs.
  - exists []. rewrite app_nil_r. auto.
  - cbn [events_after]. unfold step_events.
    destruct (attempt_no_quit w url evs) as (x & Hx & Nx).
    destruct (IH (events (attempt w url evs) ++ [Sleep 1])) as (y & Hy & Ny).
    exists (x ++ [Sleep 1] ++ y). split.
    + rewrite Hy, Hx, <- !app_assoc. reflexivity.
    + rewrite !in_app_iff. intros [H|[[H|[]]|H]]; auto. discriminate H.
Qed.

(** ** The batch *)

(** C2: whatever the other addresses did, the record at a position is
    the one of that address's own iteration, there is one record per
    address, and an address whose page loads gets the record extracted
    from its own page. *)
Theorem failure_isolation (w : Web) (ipo_urls : list string)
    (evs : list event) (i : nat) (url : string) :
  nth_error ipo_urls i = Some url ->
  let before := fst (for_loop w (firstn i ipo_urls) (evs, [])) in
  let scraped_data := snd (for_loop w ipo_urls (evs, [])) in
  length scraped_data = length ipo_urls /\
  nth_error scraped_data i = Some (record_of url (attempt w url before)) /\
  (forall st soup page_title,
     acquire w url (mkStore before NA NA NA NA NA)
     = (st, inr (soup, page_title)) ->
     nth_error scraped_data i = Some (record_of_page url soup page_title)).
Proof.
  intros Hnth before scraped_data. subst before scraped_data.
  rewrite !for_loop_unfold. cbn [fst snd app].
  pose proof (records_from_nth w ipo_urls evs i url Hnth) as Hrecord.
  unfold step_record in Hrecord.
  repeat split.
  - apply records_from_length.
  - exact Hrecord.
  - intros st soup page_title Hacquire.
    rewrite Hrecord. f_equal.
    exact (attempt_loaded w url _ st soup page_title Hacquire).
Qed.

Lemma failure_isolation_witness :
  let scraped_data :=
    snd (for_loop three_pages [acme_url; slow_url; zeta_url] ([StartChrome], []))
  in
  length scraped_data = 3 /\
  nth_error scraped_data 0
  = Some (mkRecord "Acme Corp" acme_url "12.45" "30.08" "8.77" "14.92") /\
  nth_error scraped_data 1 = Some (sentinel_record slow_url) /\
  nth_error scraped_data 2
  = Some (mkRecord "Zeta" zeta_url "1.00" "2.00" "3.00" "2.10").
Proof.
  pose (urls := [acme_url; slow_url; zeta_url]).
  destruct (failure_isolation three_pages urls [StartChrome] 0 acme_url eq_refl)
    as (Hlen & _ & Hfirst).
  destruct (failure_isolation three_pages urls [StartChrome] 1 slow_url eq_refl)
    as (_ & Hsecond & _).
  destruct (failure_isolation three_pages urls [StartChrome] 2 zeta_url eq_refl)
    as (_ & _ & Hthird).
  cbv zeta. fold urls. split; [|split; [|split]].
  - exact Hlen.
  - exact (Hfirst _ _ _ eq_refl).
  - exact Hsecond.
  - exact (Hthird _ _ _ eq_refl).
Defined.

Lemma records_from_all_failed (w : Web) (ipo_urls : list string)
    (evs : list event) :
  (forall url evs', In url ipo_urls ->
     exists st e,
       try_body w url (fresh evs') = (st, inl e) /\ from_selenium e) ->
  records_from w ipo_urls evs = map sentinel_record ipo_urls.
Proof.
  revert evs. induction ipo_urls as [|url rest IH]; intros evs Hfail.
  - reflexivity.
  - cbn [records_from map]. f_equal.
    + destruct (Hfail url evs (or_introl eq_refl)) as (st & e & Hbody & Hkind).
      exact (attempt_failed w url evs st e Hbody Hkind).
    + apply IH. intros u evs' Hin. apply Hfail. right. exact Hin.
Qed.

(** C5: when the [try] statement of an address raises [TimeoutException],
    [WebDriverException] or [NoSuchElementException], the handler prints
    its line, the loop goes on, and the record of that address has ["N/A"]
    for the name and the four values, next to the address; when the
    statement raises [TimeoutException] for every address, every record
    is of this form. *)
Theorem caught_failure_gives_sentinel (w : Web) (ipo_urls : list string)
    (evs : list event) :
  let scraped_data := snd (for_loop w ipo_urls (evs, [])) in
  (forall i url st e,
     nth_error ipo_urls i = Some url ->
     let before := fst (for_loop w (firstn i ipo_urls) (evs, [])) in
     try_body w url (mkStore before NA NA NA NA NA) = (st, inl e) ->
     from_selenium e ->
     events (attempt w url before) = events st ++ [Print (handler url e)] /\
     nth_error scraped_data i = Some (sentinel_record url)) /\
  ((forall url evs', In url ipo_urls ->
      exists st,
        try_body w url (mkStore evs' NA NA NA NA NA)
        = (st, inl TimeoutException)) ->
   scraped_data = map sentinel_record ipo_urls).
Proof.
  cbv zeta. rewrite for_loop_unfold. cbn [snd app]. split.
  - intros i url st e Hnth Hbody Hkind.
    rewrite for_loop_unfold in *. cbn [fst] in *. split.
    + unfold attempt. rewrite Hbody. reflexivity.
    + rewrite (records_from_nth w ipo_urls evs i url Hnth).
      unfold step_record. f_equal.
      exact (attempt_failed w url _ st e Hbody Hkind).
  - intros Hall. apply records_from_all_failed.
    intros url evs' Hin. destruct (Hall url evs' Hin) as (st & Hbody).
    exists st, TimeoutException. split; [exact Hbody | left; reflexivity].
Qed.

Lemma caught_failure_gives_sentinel_witness :
  nth_error
    (snd (for_loop three_pages [acme_url; slow_url; zeta_url] ([StartChrome], [])))
    1
  = Some (sentinel_record slow_url) /\
  snd (for_loop all_timeouts [acme_url; zeta_url] ([StartChrome], []))
  = [sentinel_record acme_url; sentinel_record zeta_url].
Proof.
  split.
  - refine (proj2 (proj1 (caught_failure_gives_sentinel three_pages
                            [acme_url; slow_url; zeta_url] [StartChrome])
                     1 slow_url _ TimeoutException eq_refl eq_refl _)).
    left. reflexivity.
  - apply (proj2 (caught_failure_gives_sentinel all_timeouts
                    [acme_url; zeta_url] [StartChrome])).
    intros url evs' _. eexists. reflexivity.
Defined.

(** C9: once the browser is started, the events of the run are those of
    the loop, none of which is [Quit], followed by one [Quit], whatever
    failed in the loop. *)
Theorem session_released_once_at_end (w : Web) (ipo_urls : list string) :
  start_chrome w = None ->
  exists during,
    fst (scrape_ipo_subscription_data w (Column ipo_urls))
    = [StartChrome] ++ during ++ [Quit] /\
    ~ In Quit during.
Proof.
  intros Hstart. unfold scrape_ipo_subscription_data. rewrite Hstart.
  rewrite for_loop_unfold. cbn [fst].
  destruct (events_after_no_quit w ipo_urls [StartChrome])
    as (during & Hevents & Hquiet).
  exists during. split; [|exact Hquiet].
  rewrite Hevents, <- app_assoc. reflexivity.
Qed.

Lemma session_released_once_at_end_witness :
  exists during,
    fst (scrape_ipo_subscription_data three_pages (Column [slow_url; zeta_url]))
    = [StartChrome] ++ during ++ [Quit] /\
    ~ In Quit during.
Proof.
  exact (session_released_once_at_end three_pages [slow_url; zeta_url] eq_refl).
Defined.

(** C10: with no address, and the browser started, the loop does nothing,
    the browser is started and closed, and the function returns the empty
    list of rows, not [None]. *)
Theorem empty_input_returns_empty (w : Web) :
  start_chrome w = None ->
  scrape_ipo_subscription_data w (Column [])
  = ([StartChrome; Quit], Returns (Some [])).
Proof.
  intros Hstart. unfold scrape_ipo_subscription_data.
  rewrite Hstart. reflexivity.
Qed.

Lemma empty_input_returns_empty_witness :
  scrape_ipo_subscription_data three_pages (Column [])
  = ([StartChrome; Quit], Returns (Some [])).
Proof. exact (empty_input_returns_empty three_pages eq_refl). Defined.

(* ================================================================= *)
(** * Further properties *)

(** ** Strings *)

Lemma startswith_split (p s : string) :
  PyStr.startswith p s = true <-> exists rest, s = (p ++ rest)%string.
Proof.
  revert s. induction p as [|a p IH]; intros s; cbn [PyStr.startswith].
  - split; [intros _; exists s; reflexivity | reflexivity].
  - destruct s as [|b s].
    + split; [discriminate | intros (rest & H); discriminate H].
    + rewrite andb_true_iff, Ascii.eqb_eq, IH. split.
      * intros (-> & rest & ->). exists rest. reflexivity.
      * intros (rest & H). injection H as -> ->. split; [reflexivity|].
        exists rest. reflexivity.
Qed.

Lemma startswith_app (p a b : string) :
  PyStr.startswith p a = true -> PyStr.startswith p (a ++ b)%string = true.
Proof.
  rewrite !startswith_split. intros (rest & ->).
  exists (rest ++ b)%string. clear. induction p as [|c p IH]; cbn.
  - reflexivity.
  - rewrite IH. reflexivity.
Qed.

Lemma contains_cons (p : string) (c : ascii) (s : string) :
  PyStr.contains p s = true -> PyStr.contains p (String c s) = true.
Proof.
  intros H. cbn [PyStr.contains]. rewrite H. apply orb_true_r.
Qed.

Lemma contains_app_l (p a b : string) :
  PyStr.contains p a = true -> PyStr.contains p (a ++ b)%string = true.
Proof.
  induction a as [|c a IH].
  - destruct p as [|x p]; cbn; [|discriminate].
    intros _. destruct b; reflexivity.
  - cbn [PyStr.contains String.append]. rewrite !orb_true_iff.
    intros [H|H].
    + left. exact (startswith_app p (String c a) b H).
    + right. apply IH, H.
Qed.

(** White space is only removed at the ends: what is found in the
    stripped string is found in the string. *)
Lemma contains_lstrip (p s : string) :
  PyStr.contains p (PyStr.lstrip s) = true -> PyStr.contains p s = true.
Proof.
  induction s as [|c s IH]; cbn [PyStr.lstrip].
  - auto.
  - destruct (PyStr.isspace c); [|auto].
    intros H. apply contains_cons, IH, H.
Qed.

Lemma rstrip_prefix (s : string) : exists tail, s = (PyStr.rstrip s ++ tail)%string.
Proof.
  induction s as [|c s (tail & IH)]; cbn [PyStr.rstrip].
  - exists "". reflexivity.
  - destruct (PyStr.rstrip s) as [|d r] eqn:Hr.
    + destruct (PyStr.isspace c).
      * exists (String c s). reflexivity.
      * exists tail. cbn. rewrite IH at 1. reflexivity.
    + exists tail. cbn. rewrite IH at 1. reflexivity.
Qed.

Lemma contains_rstrip (p s : string) :
  PyStr.contains p (PyStr.rstrip s) = true -> PyStr.contains p s = true.
Proof.
  intros H. destruct (rstrip_prefix s) as (tail & Hs).
  rewrite Hs. apply contains_app_l, H.
Qed.

Lemma contains_strip (p s : string) :
  PyStr.contains p (PyStr.strip s) = true -> PyStr.contains p s = true.
Proof.
  unfold PyStr.strip. intros H.
  apply contains_lstrip, contains_rstrip, H.
Qed.

Lemma rstrip_cons (c : ascii) (s : string) :
  PyStr.rstrip (String c s) =
  match PyStr.rstrip s with
  | EmptyString => if PyStr.isspace c then EmptyString else String c EmptyString
  | r => String c r
  end.
Proof. reflexivity. Qed.

Lemma rstrip_rstrip (s : string) :
  PyStr.rstrip (PyStr.rstrip s) = PyStr.rstrip s.
Proof.
  induction s as [|c s IH]; [reflexivity|].
  rewrite rstrip_cons.
  destruct (PyStr.rstrip s) as [|d r] eqn:Hr.
  - destruct (PyStr.isspace c) eqn:Hc; [reflexivity|].
    rewrite rstrip_cons. cbn [PyStr.rstrip]. rewrite Hc. reflexivity.
  - rewrite rstrip_cons, IH. reflexivity.
Qed.

Lemma lstrip_lstrip (s : string) :
  PyStr.lstrip (PyStr.lstrip s) = PyStr.lstrip s.
Proof.
  induction s as [|c s IH]; cbn [PyStr.lstrip].
  - reflexivity.
  - destruct (PyStr.isspace c) eqn:Hc; [exact IH|].
    cbn [PyStr.lstrip]. rewrite Hc. reflexivity.
Qed.

(** Stripping on the right leaves the left end as it is. *)
Lemma lstrip_rstrip (s : string) :
  PyStr.lstrip s = s -> PyStr.lstrip (PyStr.rstrip s) = PyStr.rstrip s.
Proof.
  destruct s as [|c s]; [reflexivity|].
  cbn [PyStr.lstrip]. destruct (PyStr.isspace c) eqn:Hc.
  - intros H. exfalso.
    assert (Hlen : String.length (PyStr.lstrip s) <= String.length s).
    { clear. induction s as [|d s IH]; cbn [PyStr.lstrip]; [lia|].
      destruct (PyStr.isspace d); cbn [String.length]; lia. }
    rewrite H in Hlen. cbn [String.length] in Hlen. lia.
  - intros _. cbn [PyStr.rstrip].
    destruct (PyStr.rstrip s); rewrite ?Hc; cbn [PyStr.lstrip];
      rewrite Hc; reflexivity.
Qed.

Lemma lstrip_strip (s : string) : PyStr.lstrip (PyStr.strip s) = PyStr.strip s.
Proof. unfold PyStr.strip. apply lstrip_rstrip, lstrip_lstrip. Qed.

Lemma rstrip_strip (s : string) : PyStr.rstrip (PyStr.strip s) = PyStr.strip s.
Proof. unfold PyStr.strip. apply rstrip_rstrip. Qed.

Lemma strip_strip (s : string) : PyStr.strip (PyStr.strip s) = PyStr.strip s.
Proof.
  unfold PyStr.strip at 1. rewrite lstrip_strip. apply rstrip_strip.
Qed.

Lemma search_unfold (s : string) :
  PyStr.search_before_IPO s =
  if PyStr.startswith " IPO" s then Some EmptyString
  else match s with
       | EmptyString => None
       | String c s' =>
           if Ascii.eqb c PyStr.newline then None
           else option_map (String c) (PyStr.search_before_IPO s')
       end.
Proof. destruct s; reflexivity. Qed.

Lemma contains_cons_false (p : string) (c : ascii) (s : string) :
  PyStr.startswith p (String c s) = false ->
  PyStr.contains p s = false ->
  PyStr.contains p (String c s) = false.
Proof. intros H1 H2. cbn [PyStr.contains]. rewrite H1, H2. reflexivity. Qed.

(** [" IPO"] does not overlap itself: when it does not start [g], it does
    not start [g] followed by [" IPO"] either, unless [g] is empty. *)
Lemma no_overlap_IPO (c : ascii) (g rest : string) :
  PyStr.startswith " IPO" (String c g) = false ->
  PyStr.startswith " IPO" (String c g ++ " IPO" ++ rest)%string = false.
Proof.
  destruct g as [|c1 [|c2 [|c3 g]]]; cbn [PyStr.startswith String.append];
    intros H.
  - destruct (Ascii.eqb " " c); reflexivity.
  - destruct (Ascii.eqb " " c), (Ascii.eqb "I" c1); reflexivity.
  - destruct (Ascii.eqb " " c), (Ascii.eqb "I" c1), (Ascii.eqb "P" c2);
      reflexivity.
  - exact H.
Qed.

Lemma search_group_sound (s g : string) :
  PyStr.search_before_IPO s = Some g ->
  (exists rest, s = (g ++ " IPO" ++ rest)%string) /\
  PyStr.contains line_feed g = false /\
  PyStr.contains " IPO" g = false.
Proof.
  revert g. induction s as [|c s IH]; intros g; rewrite search_unfold.
  - cbn. discriminate.
  - destruct (PyStr.startswith " IPO" (String c s)) eqn:Hstart.
    + intros H. injection H as <-. repeat split.
      apply startswith_split, Hstart.
    + destruct (Ascii.eqb c PyStr.newline) eqn:Hc; [discriminate|].
      destruct (PyStr.search_before_IPO s) as [g'|]; [|discriminate].
      cbn [option_map]. intros H. injection H as <-.
      destruct (IH g' eq_refl) as ((rest & Hs) & Hlf & Hipo).
      split; [|split].
      * exists rest. rewrite Hs. reflexivity.
      * apply contains_cons_false; [|exact Hlf].
        unfold line_feed. cbn [PyStr.startswith].
        rewrite Ascii.eqb_sym, Hc. reflexivity.
      * apply contains_cons_false; [|exact Hipo].
        destruct (PyStr.startswith " IPO" (String c g')) eqn:Hg;
          [|reflexivity].
        apply (startswith_app _ _ (" IPO" ++ rest)%string) in Hg.
        rewrite Hs in Hstart.
        change (PyStr.startswith " IPO"
                  (String c (g' ++ " IPO" ++ rest)%string) = true) in Hg.
        rewrite Hstart in Hg. discriminate Hg.
Qed.

Lemma search_group_complete (g rest : string) :
  PyStr.contains line_feed g = false ->
  PyStr.contains " IPO" g = false ->
  PyStr.search_before_IPO (g ++ " IPO" ++ rest)%string = Some g.
Proof.
  induction g as [|c g IH]; intros Hlf Hipo.
  - reflexivity.
  - cbn [PyStr.contains] in Hlf, Hipo.
    apply orb_false_iff in Hlf, Hipo.
    destruct Hlf as [Hc Hlf], Hipo as [Hstart Hipo].
    pose proof (no_overlap_IPO c g rest Hstart) as Hno.
    change ((String c g ++ " IPO" ++ rest)%string)
      with (String c (g ++ " IPO" ++ rest)%string) in Hno |- *.
    rewrite search_unfold, Hno.
    unfold line_feed in Hc. cbn [PyStr.startswith] in Hc.
    rewrite andb_true_r, Ascii.eqb_sym in Hc. rewrite Hc.
    rewrite (IH Hlf Hipo). reflexivity.
Qed.

(** X1: the title pattern.  [group(1)] is [g] exactly when the title is
    [g], then [" IPO"], then anything, with no line feed and no [" IPO"]
    inside [g]: the group stops at the first [" IPO"] of the title. *)
Theorem title_pattern_group (s g : string) :
  PyStr.search_before_IPO s = Some g <->
  (exists rest, s = (g ++ " IPO" ++ rest)%string) /\
  PyStr.contains line_feed g = false /\
  PyStr.contains " IPO" g = false.
Proof.
  split.
  - apply search_group_sound.
  - intros ((rest & ->) & Hlf & Hipo).
    apply search_group_complete; assumption.
Qed.

(** X2: a company name taken from the title has no white space at either
    end and contains neither [" IPO"] nor a line feed. *)
Theorem title_name_is_clean (page_title url name group1 : string) :
  PyStr.search_before_IPO page_title = Some group1 ->
  let resolved_name := resolve_company_name page_title url name in
  PyStr.strip resolved_name = resolved_name /\
  PyStr.contains " IPO" resolved_name = false /\
  PyStr.contains line_feed resolved_name = false.
Proof.
  intros Htitle. cbv zeta. rewrite (resolve_by_title _ _ _ _ Htitle).
  destruct (search_group_sound _ _ Htitle) as (_ & Hlf & Hipo).
  split; [apply strip_strip|]. split.
  - destruct (PyStr.contains " IPO" (PyStr.strip group1)) eqn:H; [|reflexivity].
    apply contains_strip in H. congruence.
  - destruct (PyStr.contains line_feed (PyStr.strip group1)) eqn:H;
      [|reflexivity].
    apply contains_strip in H. congruence.
Qed.

Lemma title_name_is_clean_witness :
  resolve_company_name "  Acme Corp  IPO Date, Review IPO" acme_url NA
  = "Acme Corp" /\
  PyStr.strip (resolve_company_name "  Acme Corp  IPO Date, Review IPO"
                 acme_url NA)
  = resolve_company_name "  Acme Corp  IPO Date, Review IPO" acme_url NA.
Proof.
  split; [reflexivity|].
  exact (proj1 (title_name_is_clean "  Acme Corp  IPO Date, Review IPO"
                  acme_url NA "  Acme Corp " eq_refl)).
Defined.

(** *** The name taken from the address *)

Lemma contains_char (a c : ascii) (s : string) :
  PyStr.contains (String a "") (String c s)
  = Ascii.eqb a c || PyStr.contains (String a "") s.
Proof. cbn [PyStr.contains PyStr.startswith]. rewrite andb_true_r. reflexivity. Qed.

Lemma replace_hyphen_cons (c : ascii) (s : string) :
  PyStr.replace "-" " " (String c s)
  = String (if Ascii.eqb "-" c then " "%char else c) (PyStr.replace "-" " " s).
Proof.
  unfold PyStr.replace. cbn [PyStr.replace_from PyStr.startswith].
  destruct (Ascii.eqb "-" c); reflexivity.
Qed.

Lemma replace_hyphen_none (s : string) :
  PyStr.contains "-" (PyStr.replace "-" " " s) = false.
Proof.
  induction s as [|c s IH]; [reflexivity|].
  rewrite replace_hyphen_cons, contains_char, IH, orb_false_r.
  destruct (Ascii.eqb "-" c) eqn:Hc; [reflexivity | exact Hc].
Qed.

(** The hyphen is not a letter, and no letter changes case into it. *)
Lemma cased_not_hyphen (c : ascii) :
  (PyStr.islower c = true ->
   Ascii.eqb "-" c = false /\ Ascii.eqb "-" (PyStr.upper c) = false) /\
  (PyStr.isupper c = true ->
   Ascii.eqb "-" c = false /\ Ascii.eqb "-" (PyStr.lower c) = false).
Proof.
  destruct c as [[] [] [] [] [] [] [] []]; vm_compute;
    split; intros H; try discriminate H; split; reflexivity.
Qed.

Lemma title_from_no_hyphen (cased : bool) (s : string) :
  PyStr.contains "-" s = false ->
  PyStr.contains "-" (PyStr.title_from cased s) = false.
Proof.
  revert cased. induction s as [|c s IH]; intros cased; [auto|].
  rewrite contains_char. intros H. apply orb_false_iff in H.
  destruct H as [Hc Hs]. cbn [PyStr.title_from].
  destruct (cased_not_hyphen c) as [Hlower Hupper].
  destruct (PyStr.islower c) eqn:Hl.
  - destruct (Hlower eq_refl) as [_ Hu].
    rewrite contains_char, (IH true Hs), orb_false_r.
    destruct cased; assumption.
  - destruct (PyStr.isupper c) eqn:Hup.
    + destruct (Hupper eq_refl) as [_ Hlo].
      rewrite contains_char, (IH true Hs), orb_false_r.
      destruct cased; assumption.
    + rewrite contains_char, (IH false Hs), orb_false_r. exact Hc.
Qed.

Lemma slug_name_no_hyphen (part : string) :
  PyStr.contains "-" (slug_name part) = false.
Proof.
  unfold slug_name, PyStr.title.
  apply title_from_no_hyphen, replace_hyphen_none.
Qed.

(** X3: when the title does not match, the company name contains no
    hyphen, whatever the address is. *)
Theorem address_name_has_no_hyphen (page_title url : string) :
  PyStr.search_before_IPO page_title = None ->
  PyStr.contains "-" (resolve_company_name page_title url NA) = false.
Proof.
  intros Htitle. rewrite (resolve_by_address _ _ _ Htitle).
  destruct (first_marked_part (PyStr.split "/" url))
    as [Hall | (before & part & after & Heq & Hb & Hm)].
  - rewrite (name_from_parts_unmarked _ _ Hall). reflexivity.
  - rewrite Heq, (name_from_parts_first _ _ _ _ Hb Hm).
    apply slug_name_no_hyphen.
Qed.

Lemma address_name_has_no_hyphen_witness :
  PyStr.contains "-"
    (resolve_company_name "Subscription Status"
       "https://example.com/ipo/a-b-c-ipo-fpo/7/" NA) = false /\
  resolve_company_name "Subscription Status"
    "https://example.com/ipo/a-b-c-ipo-fpo/7/" NA = "A B C Fpo".
Proof.
  split; [|reflexivity].
  exact (address_name_has_no_hyphen "Subscription Status"
           "https://example.com/ipo/a-b-c-ipo-fpo/7/" eq_refl).
Defined.

(** *** Cutting the address *)

Lemma split_not_nil (sep : ascii) (s : string) : PyStr.split sep s <> [].
Proof.
  destruct s as [|c s]; cbn [PyStr.split]; [discriminate|].
  destruct (Ascii.eqb c sep); [discriminate|].
  destruct (PyStr.split sep s); discriminate.
Qed.

Lemma concat_first_cons (sep : string) (c : ascii) (p : string)
    (ps : list string) :
  String.concat sep (String c p :: ps) = String c (String.concat sep (p :: ps)).
Proof. destruct ps; reflexivity. Qed.

(** X4: [split] cuts at every separator and nowhere else: joining the
    parts with the separator gives the string back, no part contains the
    separator, and there is always at least one part. *)
Theorem split_join (sep : ascii) (s : string) :
  String.concat (String sep "") (PyStr.split sep s) = s /\
  Forall (fun part => PyStr.contains (String sep "") part = false)
         (PyStr.split sep s) /\
  PyStr.split sep s <> [].
Proof.
  split; [|split; [|apply split_not_nil]].
  - induction s as [|c s IH]; [reflexivity|].
    cbn [PyStr.split]. destruct (Ascii.eqb c sep) eqn:Hc.
    + apply Ascii.eqb_eq in Hc. subst c.
      pose proof (split_not_nil sep s) as Hne.
      destruct (PyStr.split sep s) as [|p ps]; [congruence|].
      cbn [String.concat String.append] in *. rewrite IH. reflexivity.
    + pose proof (split_not_nil sep s) as Hne.
      destruct (PyStr.split sep s) as [|p ps]; [congruence|].
      rewrite concat_first_cons, IH. reflexivity.
  - induction s as [|c s IH]; cbn [PyStr.split].
    + repeat constructor.
    + destruct (Ascii.eqb c sep) eqn:Hc.
      * constructor; [reflexivity | exact IH].
      * destruct (PyStr.split sep s) as [|p ps].
        -- constructor; [|constructor].
           rewrite contains_char, Ascii.eqb_sym, Hc. reflexivity.
        -- inversion IH as [|? ? Hp Hps]; subst.
           constructor; [|exact Hps].
           rewrite contains_char, Ascii.eqb_sym, Hc. exact Hp.
Qed.

(** ** The table *)

Lemma find_in_plain_row (marker : string) (pieces : list piece) :
  marker <> "" ->
  match List.find (is_cell marker)
          (flat_map (fun k => k :: descendants k) (map node_of pieces)) with
  | Some td => get_text_strip td
  | None => NA
  end
  = match List.find (cell_for marker) pieces with
    | Some (Cell _ text) => PyStr.strip text
    | _ => NA
    end.
Proof.
  intros Hmarker. induction pieces as [|[gap|data_title text] rest IH].
  - reflexivity.
  - exact IH.
  - cbn [map flat_map node_of List.find cell_for app].
    unfold data_cell at 1.
    cbn [descendants flat_map app List.find].
    unfold is_cell at 1 2, data_cell at 1.
    cbn [name_is attr get].
    change (String.eqb "td" "td") with true.
    change (String.eqb "data-title" "data-title") with true.
    cbn [andb]. rewrite (title_has_some marker data_title Hmarker).
    destruct (PyStr.contains marker data_title).
    + apply get_text_strip_text.
    + exact IH.
Qed.

(** X5: in a row made of cells and the strings between them, the value
    for a marker is the stripped text of the first cell whose
    [data-title] contains the marker, wherever that cell stands, and
    ["N/A"] when no cell does. *)
Theorem plain_row_cell (marker : string) (attrs : list (string * string))
    (pieces : list piece) :
  marker <> "" ->
  cell marker (plain_row attrs pieces)
  = match List.find (cell_for marker) pieces with
    | Some (Cell _ text) => PyStr.strip text
    | _ => NA
    end.
Proof.
  intros Hmarker. rewrite cell_by_find.
  exact (find_in_plain_row marker pieces Hmarker).
Qed.

Lemma plain_row_cell_witness :
  cell "NII"
    (plain_row [] [Gap " "; Cell "QIB" "1.2"; Gap " "; Cell "bNII" " 7.5 ";
                   Cell "NII" "3.4"])
  = "7.5".
Proof.
  refine (eq_trans (plain_row_cell "NII" [] _ _) _).
  - discriminate.
  - reflexivity.
Defined.

(** X6: the table block raises only [AttributeError], and it does so
    exactly when the table around the first marker caption has no
    [tbody]. *)
Theorem extract_raises_iff (soup : markup) (e : exn) :
  extract soup = inl e <->
  e = AttributeError /\
  exists ipo_table table_element,
    find_by_string "caption" caption_matches soup = Some ipo_table /\
    find_parent "table" ipo_table = Some table_element /\
    find "tbody" table_element = None.
Proof.
  unfold extract, body_rows. split.
  - destruct (find_by_string "caption" caption_matches soup) as [ipo_table|];
      [|discriminate].
    destruct (find_parent "table" ipo_table) as [table_element|] eqn:Htable;
      [|discriminate].
    destruct (find "tbody" table_element) as [tbody|] eqn:Hbody.
    + destruct (find_all "tr" tbody); discriminate.
    + intros H. injection H as <-. split; [reflexivity|].
      exists ipo_table, table_element. auto.
  - intros (-> & ipo_table & table_element & -> & -> & ->). reflexivity.
Qed.

(** *** Values without white space at their ends *)

Lemma lstrip_head (c : ascii) (s : string) :
  PyStr.lstrip (String c s) = String c s -> PyStr.isspace c = false.
Proof.
  cbn [PyStr.lstrip]. destruct (PyStr.isspace c); [|reflexivity].
  intros H. exfalso.
  assert (Hlen : String.length (PyStr.lstrip s) <= String.length s).
  { clear. induction s as [|d s IH]; cbn [PyStr.lstrip]; [lia|].
    destruct (PyStr.isspace d); cbn [String.length]; lia. }
  rewrite H in Hlen. cbn [String.length] in Hlen. lia.
Qed.

Lemma lstrip_app (a b : string) :
  a <> "" -> PyStr.lstrip a = a -> PyStr.lstrip (a ++ b)%string = (a ++ b)%string.
Proof.
  destruct a as [|c a]; [congruence|].
  intros _ H. apply lstrip_head in H.
  cbn [String.append PyStr.lstrip]. rewrite H. reflexivity.
Qed.

Lemma rstrip_app (a b : string) :
  PyStr.rstrip b <> "" ->
  PyStr.rstrip (a ++ b)%string = (a ++ PyStr.rstrip b)%string.
Proof.
  intros Hb. induction a as [|c a IH]; [reflexivity|].
  cbn [String.append]. rewrite rstrip_cons, IH.
  destruct (a ++ PyStr.rstrip b)%string eqn:Heq; [|reflexivity].
  destruct a; cbn [String.append] in Heq; [congruence | discriminate Heq].
Qed.

Lemma append_empty (s : string) : (s ++ "")%string = s.
Proof. induction s as [|c s IH]; cbn; [|rewrite IH]; reflexivity. Qed.

Lemma concat_empty_cons (x : string) (l : list string) :
  String.concat "" (x :: l) = (x ++ String.concat "" l)%string.
Proof. destruct l; cbn [String.concat]; [rewrite append_empty|]; reflexivity. Qed.

Lemma tidy_concat (x : string) (l : list string) :
  tidy x -> Forall tidy l -> tidy (String.concat "" (x :: l)).
Proof.
  intros Hx Hl. revert x Hx.
  induction Hl as [|y l Hy _ IH]; intros x Hx.
  - exact Hx.
  - rewrite concat_empty_cons.
    destruct (IH y Hy) as (Hne & Hleft & Hright).
    destruct Hx as (Hxne & Hxleft & Hxright).
    split; [|split].
    + destruct x; [congruence | discriminate].
    + apply lstrip_app; assumption.
    + rewrite rstrip_app; rewrite Hright; [reflexivity | exact Hne].
Qed.

Lemma get_text_strip_trimmed (x : node) :
  PyStr.strip (get_text_strip x) = get_text_strip x.
Proof.
  unfold get_text_strip.
  assert (Hall : Forall tidy
            (filter (fun s => negb (String.eqb s ""))
                    (map PyStr.strip (strings x)))).
  { apply Forall_forall. intros s Hs.
    apply filter_In in Hs. destruct Hs as [Hin Hne].
    apply in_map_iff in Hin. destruct Hin as (raw & <- & _).
    split; [|split].
    - intros Heq. rewrite Heq in Hne. discriminate Hne.
    - apply lstrip_strip.
    - apply rstrip_strip. }
  destruct (filter _ _) as [|y l]; [reflexivity|].
  inversion Hall as [|? ? Hy Hl]; subst.
  destruct (tidy_concat y l Hy Hl) as (_ & Hleft & Hright).
  unfold PyStr.strip. rewrite Hleft. exact Hright.
Qed.

Lemma cell_trimmed (marker : string) (row : node) :
  PyStr.strip (cell marker row) = cell marker row.
Proof.
  unfold cell. destruct (find_by_attr _ _ _ row).
  - apply get_text_strip_trimmed.
  - reflexivity.
Qed.

Lemma metrics_of_trimmed (soup : markup) :
  let m := metrics_of soup in
  PyStr.strip (qib m) = qib m /\ PyStr.strip (nii m) = nii m /\
  PyStr.strip (rii m) = rii m /\ PyStr.strip (total m) = total m.
Proof.
  unfold metrics_of, extract.
  destruct (find_by_string "caption" caption_matches soup) as [ipo_table|];
    [|cbn; auto].
  destruct (find_parent "table" ipo_table) as [table_element|]; [|cbn; auto].
  destruct (body_rows table_element) as [e|[|r rows]]; [cbn; auto..|].
  cbv zeta. unfold row_metrics. cbn [qib nii rii total].
  repeat split; apply cell_trimmed.
Qed.

(** The record of an iteration is the placeholder record, or the record
    of the page that was loaded. *)
Lemma attempt_record_cases (w : Web) (url : string) (evs : list event) :
  record_of url (attempt w url evs) = sentinel_record url \/
  exists soup page_title,
    record_of url (attempt w url evs) = record_of_page url soup page_title.
Proof.
  destruct (acquire w url (fresh evs)) as [st [e|[soup page_title]]] eqn:Hacq.
  - left. rewrite attempt_record. unfold try_body, bind. rewrite Hacq.
    cbn [fst].
    pose proof (acquire_same_variables w url (fresh evs)) as Hsame.
    rewrite Hacq in Hsame. cbn [fst] in Hsame.
    rewrite (record_of_same_variables url _ _ Hsame). reflexivity.
  - right. exists soup, page_title.
    exact (attempt_loaded w url evs st soup page_title Hacq).
Qed.

Lemma step_record_trimmed (w : Web) (url : string) (evs : list event) :
  trimmed_values (step_record w url evs).
Proof.
  unfold step_record.
  destruct (attempt_record_cases w url evs) as [-> | (soup & t & ->)].
  - repeat split.
  - exact (metrics_of_trimmed soup).
Qed.

(** X7: whatever the pages hold, no subscription value of the output has
    white space at its ends. *)
Theorem subscription_values_trimmed (w : Web) (ipo_urls : list string)
    (evs : list event) :
  Forall trimmed_values (snd (for_loop w ipo_urls (evs, []))).
Proof.
  rewrite for_loop_unfold. cbn [snd app].
  revert evs. induction ipo_urls as [|url rest IH]; intros evs.
  - constructor.
  - cbn [records_from]. constructor.
    + apply step_record_trimmed.
    + apply IH.
Qed.

(** ** The events of an iteration *)

(** The first half of the [try] statement, written out: each call is
    answered from the events before it, and the first one that raises
    ends the statement. *)
Lemma acquire_run (w : Web) (url : string) (st : store) :
  let h1 := events st ++ [Print (NavigatingTo url)] in
  let h2 := h1 ++ [Get url] in
  let h3 := (h2 ++ [ExecuteScript]) ++ [Sleep 3] in
  let h4 := h3 ++ [WaitForCaption] in
  let h5 := h4 ++ [PageSource] in
  let h6 := h5 ++ [Title] in
  let at_ (h : list event) : store :=
    mkStore h (company_name st) (qib_sub st) (nii_sub st) (rii_sub st)
            (total_sub st) in
  acquire w url st =
  match get_page w h1 url with
  | Some e => (at_ h2, inl e)
  | None =>
      match execute_script w h2 with
      | Some e => (at_ (h2 ++ [ExecuteScript]), inl e)
      | None =>
          match wait_for_caption w h3 with
          | Some e => (at_ h4, inl e)
          | None =>
              match page_source w h4 with
              | inl e => (at_ h5, inl e)
              | inr soup =>
                  match title w h5 with
                  | inl e => (at_ h6, inl e)
                  | inr page_title => (at_ h6, inr (soup, page_title))
                  end
              end
          end
      end
  end.
Proof.
  cbv zeta.
  unfold acquire, bind, emit, call_unit, call_value, ret, log.
  cbn [events company_name qib_sub nii_sub rii_sub total_sub].
  destruct (get_page w _ url); [reflexivity|].
  destruct (execute_script w _); [reflexivity|].
  destruct (wait_for_caption w _); [reflexivity|].
  destruct (page_source w _); [reflexivity|].
  destruct (title w _); reflexivity.
Qed.

(** The events an iteration adds: the line that announces the address,
    an initial part of the calls that load the page, never empty, and at
    most one more line. *)
Lemma attempt_shape (w : Web) (url : string) (evs : list event) :
  exists n diagnostics,
    events (attempt w url evs)
    = evs ++ Print (NavigatingTo url)
             :: firstn (S n) (page_calls url) ++ diagnostics /\
    forallb is_print diagnostics = true /\
    length diagnostics <= 1.
Proof.
  unfold attempt, try_body, bind. rewrite acquire_run.
  cbn [events company_name qib_sub nii_sub rii_sub total_sub].
  destruct (get_page w _ url);
    [|destruct (execute_script w _);
      [|destruct (wait_for_caption w _);
        [|destruct (page_source w _) as [?|soup];
          [|destruct (title w _) as [?|page_title];
            [|unfold fill, bind, modify, of_result, read, emit;
              destruct (extract soup) as [?|[?| | |]]]]]]];
    cbn [events log set_subs set_company_name fst snd];
    rewrite <- ?app_assoc; cbn [app];
    first
      [ exists 5; eexists; split;
        [cbn [firstn page_calls app]; reflexivity
        |split; [reflexivity | cbn [length]; lia]]
      | exists 4; eexists; split;
        [cbn [firstn page_calls app]; reflexivity
        |split; [reflexivity | cbn [length]; lia]]
      | exists 3; eexists; split;
        [cbn [firstn page_calls app]; reflexivity
        |split; [reflexivity | cbn [length]; lia]]
      | exists 1; eexists; split;
        [cbn [firstn page_calls app]; reflexivity
        |split; [reflexivity | cbn [length]; lia]]
      | exists 0; eexists; split;
        [cbn [firstn page_calls app]; reflexivity
        |split; [reflexivity | cbn [length]; lia]] ].
Qed.

Lemma visited_app (a b : list event) :
  visited (a ++ b) = visited a ++ visited b.
Proof. apply flat_map_app. Qed.

Lemma visited_prints (l : list event) :
  forallb is_print l = true -> visited l = [].
Proof.
  induction l as [|e l IH]; [reflexivity|].
  cbn [forallb]. intros H. apply andb_true_iff in H. destruct H as [He Hl].
  destruct e; try discriminate He. exact (IH Hl).
Qed.

Lemma visited_page_calls (n : nat) (url : string) :
  visited (firstn (S n) (page_calls url)) = [url].
Proof. do 6 (destruct n as [|n]; [reflexivity|]). reflexivity. Qed.

Lemma attempt_visits (w : Web) (url : string) (evs : list event) :
  visited (events (attempt w url evs)) = visited evs ++ [url].
Proof.
  destruct (attempt_shape w url evs) as (n & d & -> & Hd & _).
  rewrite visited_app. f_equal.
  change (visited (firstn (S n) (page_calls url) ++ d) = [url]).
  rewrite visited_app, visited_page_calls, (visited_prints d Hd).
  reflexivity.
Qed.

Lemma events_after_visits (w : Web) (ipo_urls : list string)
    (evs : list event) :
  visited (events_after w ipo_urls evs) = visited evs ++ ipo_urls.
Proof.
  revert evs. induction ipo_urls as [|url rest IH]; intros evs.
  - cbn. rewrite app_nil_r. reflexivity.
  - cbn [events_after]. rewrite IH. unfold step_events.
    rewrite visited_app, attempt_visits. cbn [visited flat_map app].
    rewrite app_nil_r, <- app_assoc. reflexivity.
Qed.

(** X8: the browser is sent to every address once, in the order of the
    list, whatever fails on the way: no address is skipped and none is
    tried again. *)
Theorem every_address_visited_once (w : Web) (ipo_urls : list string) :
  (forall evs,
     visited (fst (for_loop w ipo_urls (evs, []))) = visited evs ++ ipo_urls) /\
  (start_chrome w = None ->
   visited (fst (scrape_ipo_subscription_data w (Column ipo_urls))) = ipo_urls).
Proof.
  split.
  - intros evs. rewrite for_loop_unfold. apply events_after_visits.
  - intros Hstart. unfold scrape_ipo_subscription_data. rewrite Hstart.
    rewrite for_loop_unfold. cbn [fst].
    rewrite visited_app, events_after_visits. cbn. apply app_nil_r.
Qed.

Lemma every_address_visited_once_witness :
  visited (fst (scrape_ipo_subscription_data three_pages
                  (Column [slow_url; acme_url; slow_url])))
  = [slow_url; acme_url; slow_url].
Proof.
  exact (proj2 (every_address_visited_once three_pages
                  [slow_url; acme_url; slow_url]) eq_refl).
Defined.

(** X9: the calls an iteration makes on the driver are [get], then
    [execute_script], the wait, [page_source] and [title], each one made
    only when every call before it returned: [get] is always made, the
    call that raises is the last one, and when none raises all five are
    made. *)
Theorem driver_calls_stop_at_failure (w : Web) (url : string)
    (evs : list event) :
  exists added,
    events (attempt w url evs) = evs ++ added /\
    filter is_driver_call added = calls_until_failure w url evs.
Proof.
  unfold attempt, try_body, bind, calls_until_failure.
  rewrite acquire_run. cbv zeta.
  cbn [events company_name qib_sub nii_sub rii_sub total_sub].
  destruct (get_page w _ url);
    [|destruct (execute_script w _);
      [|destruct (wait_for_caption w _);
        [|destruct (page_source w _) as [?|soup];
          [|destruct (title w _) as [?|page_title];
            [|unfold fill, bind, modify, of_result, read, emit;
              destruct (extract soup) as [?|[?| | |]]]]]]];
    cbn [events log set_subs set_company_name fst snd];
    rewrite <- ?app_assoc; cbn [app];
    (eexists; split; [reflexivity | reflexivity]).
Qed.

Lemma seconds_slept_app (a b : list event) :
  seconds_slept (a ++ b) = seconds_slept a + seconds_slept b.
Proof. unfold seconds_slept. rewrite map_app. apply list_sum_app. Qed.

Lemma seconds_slept_prints (l : list event) :
  forallb is_print l = true -> seconds_slept l = 0.
Proof.
  induction l as [|e l IH]; [reflexivity|].
  cbn [forallb]. intros H. apply andb_true_iff in H. destruct H as [He Hl].
  destruct e; try discriminate He. exact (IH Hl).
Qed.

Lemma seconds_slept_page_calls (n : nat) (url : string) :
  seconds_slept (firstn (S n) (page_calls url)) <= 3.
Proof.
  do 6 (destruct n as [|n]; [cbn; lia|]). cbn. lia.
Qed.

Lemma step_events_slept (w : Web) (url : string) (evs : list event) :
  exists k,
    seconds_slept (step_events w url evs) = seconds_slept evs + k /\
    1 <= k <= 4.
Proof.
  unfold step_events.
  destruct (attempt_shape w url evs) as (n & d & -> & Hd & _).
  exists (seconds_slept (firstn (S n) (page_calls url)) + 1).
  pose proof (seconds_slept_page_calls n url) as Hcalls.
  split; [|lia].
  rewrite !seconds_slept_app.
  change (Print (NavigatingTo url) :: firstn (S n) (page_calls url) ++ d)
    with ([Print (NavigatingTo url)] ++ firstn (S n) (page_calls url) ++ d).
  rewrite !seconds_slept_app, (seconds_slept_prints d Hd).
  cbn. lia.
Qed.

(** X10: the pauses of the loop add up to at least one second and at
    most four seconds per address. *)
Theorem loop_sleeps_per_address (w : Web) (ipo_urls : list string)
    (evs : list event) :
  exists k,
    seconds_slept (fst (for_loop w ipo_urls (evs, [])))
    = seconds_slept evs + k /\
    length ipo_urls <= k <= 4 * length ipo_urls.
Proof.
  rewrite for_loop_unfold. cbn [fst].
  revert evs. induction ipo_urls as [|url rest IH]; intros evs.
  - exists 0. cbn [events_after length]. lia.
  - cbn [events_after].
    destruct (step_events_slept w url evs) as (k1 & H1 & B1).
    destruct (IH (step_events w url evs)) as (k2 & H2 & B2).
    exists (k1 + k2). rewrite H2, H1. cbn [length]. lia.
Qed.

(** ** A failure of the table block *)

(** X11: when the page loads and the table block raises, the record
    keeps the company name that was assigned before, with ["N/A"] for the
    four values, and the [except Exception] clause prints its line. *)
Theorem name_kept_when_table_block_raises (w : Web) (url : string)
    (evs : list event) (st : store) (soup : markup) (page_title : string)
    (e : exn) :
  acquire w url (fresh evs) = (st, inr (soup, page_title)) ->
  extract soup = inl e ->
  record_of url (attempt w url evs)
  = mkRecord (resolve_company_name page_title url NA) url
             "N/A" "N/A" "N/A" "N/A" /\
  events (attempt w url evs)
  = events st ++ [Print (GenericErrorScraping url AttributeError)].
Proof.
  intros Hacq Hext. split.
  - rewrite (attempt_loaded w url evs st soup page_title Hacq).
    unfold record_of_page, metrics_of. rewrite Hext. reflexivity.
  - pose proof (extract_raises_only soup e Hext) as ->.
    unfold attempt, try_body, bind. fold (fresh evs). rewrite Hacq.
    unfold fill, bind, modify, of_result. rewrite Hext. reflexivity.
Qed.

Lemma name_kept_when_table_block_raises_witness :
  record_of acme_url (attempt bare_tables acme_url [StartChrome])
  = mkRecord "Acme Corp" acme_url "N/A" "N/A" "N/A" "N/A".
Proof.
  exact (proj1 (name_kept_when_table_block_raises bare_tables acme_url
                  [StartChrome] _ (page_with_table []) "Acme Corp IPO Date"
                  AttributeError eq_refl eq_refl)).
Defined.

(** ** Runs that return nothing *)

(** X12: how a call ends.  It raises [UnboundLocalError] exactly when
    [pd.read_excel] itself raised [KeyError]; it returns [None] exactly
    when one of the other three failures of reading was caught or the
    browser could not be started; it returns rows exactly when the
    addresses were read and the browser started.  Unless rows are
    returned no address is visited and [quit] is not called, and when the
    addresses could not be read the function only prints. *)
Theorem how_the_call_ends (w : Web) (book : workbook) :
  let run := scrape_ipo_subscription_data w book in
  (snd run = Raises UnboundLocalError <-> book = KeyErrorInReadExcel) /\
  (snd run = Returns None <->
   book = FileNotFoundError \/ book = KeyError \/ book = ReadFailure \/
   exists ipo_urls, book = Column ipo_urls /\ start_chrome w <> None) /\
  ((exists rows, snd run = Returns (Some rows)) <->
   exists ipo_urls, book = Column ipo_urls /\ start_chrome w = None) /\
  ((forall rows, snd run <> Returns (Some rows)) ->
   visited (fst run) = [] /\ ~ In Quit (fst run)) /\
  ((forall ipo_urls, book <> Column ipo_urls) ->
   forallb is_print (fst run) = true).
Proof.
  cbv zeta. unfold scrape_ipo_subscription_data.
  destruct book as [| | | |ipo_urls].
  1-4: (split; [|split; [|split; [|split]]]);
    [ split; first [reflexivity | discriminate]
    | split;
      [ first [discriminate | intros _; tauto]
      | first [reflexivity
              | intros [H|[H|[H|(urls & H & _)]]]; discriminate H] ]
    | split;
      [ intros (rows & H); discriminate H
      | intros (urls & H & _); discriminate H ]
    | intros _; split; [reflexivity | cbn; intuition discriminate]
    | reflexivity ].
  destruct (start_chrome w) as [e|] eqn:Hstart; cbn [fst snd].
  - split; [|split; [|split; [|split]]].
    + split; discriminate.
    + split; [|reflexivity].
      intros _. right. right. right. exists ipo_urls.
      split; [reflexivity | discriminate].
    + split.
      * intros (rows & H). discriminate H.
      * intros (urls & _ & H). discriminate H.
    + intros _. split; [reflexivity | cbn; intuition discriminate].
    + intros H. exfalso. exact (H ipo_urls eq_refl).
  - split; [|split; [|split; [|split]]].
    + split; discriminate.
    + split; [discriminate|].
      intros [H|[H|[H|(urls & _ & H)]]]; try discriminate H.
      exfalso. exact (H eq_refl).
    + split.
      * intros _. exists ipo_urls. auto.
      * intros _. eexists. reflexivity.
    + intros H. exfalso. exact (H _ eq_refl).
    + intros H. exfalso. exact (H ipo_urls eq_refl).
Qed.

(** ** Pages that do not change *)

Lemma current_url_snoc (evs : list event) (e : event) :
  current_url (evs ++ [e])
  = match e with
    | Get url => url
    | _ => current_url evs
    end.
Proof.
  unfold current_url. rewrite fold_left_app. destruct e; reflexivity.
Qed.

(** The record of an iteration depends on what loading the page gave. *)
Lemma attempt_record_by_result (w : Web) (url : string) (evs : list event) :
  record_of url (attempt w url evs)
  = match snd (acquire w url (fresh evs)) with
    | inl _ => sentinel_record url
    | inr (soup, page_title) => record_of_page url soup page_title
    end.
Proof.
  destruct (acquire w url (fresh evs)) as [st [e|[soup page_title]]] eqn:Hacq;
    cbn [snd].
  - rewrite attempt_record. unfold try_body, bind. rewrite Hacq. cbn [fst].
    pose proof (acquire_same_variables w url (fresh evs)) as Hsame.
    rewrite Hacq in Hsame. cbn [fst] in Hsame.
    rewrite (record_of_same_variables url _ _ Hsame). reflexivity.
  - exact (attempt_loaded w url evs st soup page_title Hacq).
Qed.

Lemma acquire_result_stateless (w : Web) (url : string)
    (evs evs' : list event) :
  stateless w ->
  snd (acquire w url (fresh evs)) = snd (acquire w url (fresh evs')).
Proof.
  intros (Hget & Hscript & Hwait & Hsource & Htitle).
  rewrite !acquire_run. cbn [events fresh].
  rewrite (Hget (evs ++ [Print (NavigatingTo url)])
                (evs' ++ [Print (NavigatingTo url)]) url).
  destruct (get_page w _ url); [reflexivity|].
  match goal with
  | |- context [execute_script w ?h] =>
      match goal with
      | |- _ = snd (match execute_script w ?h' with _ => _ end) =>
          rewrite (Hscript h h')
            by (rewrite !current_url_snoc; reflexivity)
      end
  end.
  destruct (execute_script w _); [reflexivity|].
  match goal with
  | |- context [wait_for_caption w ?h] =>
      match goal with
      | |- _ = snd (match wait_for_caption w ?h' with _ => _ end) =>
          rewrite (Hwait h h')
            by (rewrite !current_url_snoc; reflexivity)
      end
  end.
  destruct (wait_for_caption w _); [reflexivity|].
  match goal with
  | |- context [page_source w ?h] =>
      match goal with
      | |- _ = snd (match page_source w ?h' with _ => _ end) =>
          rewrite (Hsource h h')
            by (rewrite !current_url_snoc; reflexivity)
      end
  end.
  destruct (page_source w _); [reflexivity|].
  match goal with
  | |- context [title w ?h] =>
      match goal with
      | |- _ = snd (match title w ?h' with _ => _ end) =>
          rewrite (Htitle h h')
            by (rewrite !current_url_snoc; reflexivity)
      end
  end.
  destruct (title w _); reflexivity.
Qed.

Lemma step_record_stateless (w : Web) (url : string) (evs evs' : list event) :
  stateless w -> step_record w url evs = step_record w url evs'.
Proof.
  intros Hw. unfold step_record.
  rewrite !attempt_record_by_result.
  rewrite (acquire_result_stateless w url evs evs' Hw). reflexivity.
Qed.

(** X13: when the pages do not change during the run, the record of an
    address depends on the address alone: it is the record the address
    would get as the only one of the list, wherever it stands and whatever
    happened to the others. *)
Theorem records_depend_on_address_only (w : Web) (ipo_urls : list string)
    (evs : list event) :
  stateless w ->
  snd (for_loop w ipo_urls (evs, []))
  = map (fun url => record_of url (attempt w url [])) ipo_urls.
Proof.
  intros Hw. rewrite for_loop_unfold. cbn [snd app].
  revert evs. induction ipo_urls as [|url rest IH]; intros evs.
  - reflexivity.
  - cbn [records_from map]. rewrite IH. f_equal.
    exact (step_record_stateless w url evs [] Hw).
Qed.

Lemma three_pages_stateless : stateless three_pages.
Proof.
  unfold stateless, three_pages. cbn [get_page execute_script
    wait_for_caption page_source title].
  repeat split; intros evs evs'; try reflexivity; intros ->; reflexivity.
Qed.

Lemma records_depend_on_address_only_witness :
  snd (for_loop three_pages [zeta_url; slow_url; zeta_url] ([StartChrome], []))
  = [mkRecord "Zeta" zeta_url "1.00" "2.00" "3.00" "2.10";
     sentinel_record slow_url;
     mkRecord "Zeta" zeta_url "1.00" "2.00" "3.00" "2.10"].
Proof.
  refine (eq_trans
            (records_depend_on_address_only three_pages
               [zeta_url; slow_url; zeta_url] [StartChrome]
               three_pages_stateless) _).
  reflexivity.
Defined.

(** ** Values that are missing *)



(** ** The script *)

Lemma not_in_ran (x : script_event) (evs : list event) :
  (forall e, x <> Ran e) -> ~ In x (map Ran evs).
Proof.
  intros Hx Hin. apply in_map_iff in Hin.
  destruct Hin as (e & <- & _). exact (Hx e eq_refl).
Qed.

(** X15: the script calls [to_excel] exactly when the function returned
    a data frame, on the fixed output file and with the rows returned;
    it reports a failure exactly when the function returned [None], and
    completion exactly when [to_excel] returned. *)
Theorem script_saves_what_was_scraped (w : Web) (book : workbook)
    (to_excel : list record -> option exn) :
  let returned := snd (scrape_ipo_subscription_data w book) in
  let done := script w book to_excel in
  (forall file rows,
     In (ToExcel file rows) done <->
     file = output_excel_file /\ returned = Returns (Some rows)) /\
  (In (Said ScrapingFailed) done <-> returned = Returns None) /\
  (In (Said (ScrapingComplete output_excel_file)) done <->
   exists rows, returned = Returns (Some rows) /\ to_excel rows = None).
Proof.
  cbv zeta. unfold script.
  destruct (scrape_ipo_subscription_data w book) as [evs [[rows|]|u]];
    cbn [snd]; (split; [|split]).
  - intros file rows'. cbn [In]. rewrite in_app_iff. split.
    + intros [H|[H|H]]; [discriminate H | |].
      * exfalso. revert H. apply not_in_ran. discriminate.
      * destruct H as [H|H]; [injection H as <- <-; auto|].
        destruct (to_excel rows); cbn [In] in H; [tauto|].
        intuition discriminate.
    + intros (-> & H). injection H as ->. right. right. left. reflexivity.
  - cbn [In]. rewrite in_app_iff. split; [|discriminate].
    intros [H|[H|H]]; [discriminate H | |].
    + exfalso. revert H. apply not_in_ran. discriminate.
    + destruct H as [H|H]; [discriminate H|].
      destruct (to_excel rows); cbn [In] in H; [tauto|].
      intuition discriminate.
  - cbn [In]. rewrite in_app_iff. split.
    + intros [H|[H|H]]; [discriminate H | |].
      * exfalso. revert H. apply not_in_ran. discriminate.
      * destruct H as [H|H]; [discriminate H|].
        destruct (to_excel rows) eqn:Hsave; cbn [In] in H; [tauto|].
        exists rows. auto.
    + intros (rows' & H & Hsave). injection H as <-.
      rewrite Hsave. right. right. right. left. reflexivity.
  - intros file rows'. cbn [In]. rewrite in_app_iff. split.
    + intros [H|[H|H]]; [discriminate H | |].
      * exfalso. revert H. apply not_in_ran. discriminate.
      * cbn [In] in H. intuition discriminate.
    + intros (_ & H). discriminate H.
  - cbn [In]. rewrite in_app_iff. split; [reflexivity|].
    intros _. right. right. left. reflexivity.
  - cbn [In]. rewrite in_app_iff. split.
    + intros [H|[H|H]]; [discriminate H | |].
      * exfalso. revert H. apply not_in_ran. discriminate.
      * cbn [In] in H. intuition discriminate.
    + intros (rows' & H & _). discriminate H.
  - intros file rows'. cbn [In]. rewrite in_app_iff. split.
    + intros [H|[H|H]]; [discriminate H | |].
      * exfalso. revert H. apply not_in_ran. discriminate.
      * destruct H.
    + intros (_ & H). discriminate H.
  - cbn [In]. rewrite in_app_iff. split; [|discriminate].
    intros [H|[H|H]]; [discriminate H | |].
    + exfalso. revert H. apply not_in_ran. discriminate.
    + destruct H.
  - cbn [In]. rewrite in_app_iff. split.
    + intros [H|[H|H]]; [discriminate H | |].
      * exfalso. revert H. apply not_in_ran. discriminate.
      * destruct H.
    + intros (rows' & H & _). discriminate H.
Qed.

(** ** The last row of the first body *)







